(** * gulp-gh-pages: the deployment task of [index.js]

    A shallow embedding of the plugin exported by [index.js]: the option
    defaulting of [module.exports], the through2 transform
    [collectFileName] and the flush function [task] with its chain of
    promises over [./lib/git].  The git library, [gulp.dest] and the host
    clock are collaborators of [index.js]; they are an interface here, and
    every call the task makes on them is recorded in a trace.

    The first part holds the definitions: the values of JavaScript the
    plugin relies on, [Date.prototype.toISOString], the plugin itself, a
    model of the collaborators after the spec, and the vocabulary of the
    properties.  The second part holds the properties: the transform, the
    chain of promises, branch resolution, the sync step, commit and push,
    the copy and the removal, and the same on the model. *)

From Stdlib Require Import ZArith Lia List Ascii String.
From stdpp Require Import base option list strings pretty gmap.
Import ListNotations.

Local Open Scope Z_scope.

(** ** JavaScript values used by the plugin *)

Module JS.

(** [undefined] is [None]. The only falsy string is the empty one. *)
Definition truthy (v : option string) : bool :=
  match v with
  | Some s => negb (String.eqb s EmptyString)
  | None => false
  end.

(** [v || d] on a string-or-undefined value. *)
Definition or (v : option string) (d : string) : string :=
  match v with
  | Some s => if String.eqb s EmptyString then d else s
  | None => d
  end.

(** [xs.indexOf(x) > -1] on an array of strings. *)
Definition includes (xs : list string) (x : string) : bool :=
  existsb (String.eqb x) xs.

End JS.

(** ** [Date.prototype.toISOString]

    A time value is a number of milliseconds since the epoch.  The calendar
    date comes from the day number by the usual era computation on the
    proleptic Gregorian calendar; years outside 0000..9999 take the signed
    six-digit form. *)

Module Date.

Definition msPerDay : Z := 86400000.

Definition Day (t : Z) : Z := t / msPerDay.
Definition TimeWithinDay (t : Z) : Z := t mod msPerDay.

Definition HourFromTime (t : Z) : Z := TimeWithinDay t / 3600000.
Definition MinFromTime (t : Z) : Z := (TimeWithinDay t / 60000) mod 60.
Definition SecFromTime (t : Z) : Z := (TimeWithinDay t / 1000) mod 60.
Definition msFromTime (t : Z) : Z := TimeWithinDay t mod 1000.

(** Year, month (1..12) and day of the month (1..31) of a day number. *)
Definition civil_from_days (z : Z) : Z * Z * Z :=
  let z := z + 719468 in
  let era := z / 146097 in
  let doe := z - era * 146097 in
  let yoe := (doe - doe / 1460 + doe / 36524 - doe / 146096) / 365 in
  let doy := doe - (365 * yoe + yoe / 4 - yoe / 100) in
  let mp := (5 * doy + 2) / 153 in
  let d := doy - (153 * mp + 2) / 5 + 1 in
  let m := if mp <? 10 then mp + 3 else mp - 9 in
  let y := yoe + era * 400 in
  (if m <=? 2 then y + 1 else y, m, d).

(** The inverse: the day number of a calendar date. *)
Definition days_from_civil (y m d : Z) : Z :=
  let y := if m <=? 2 then y - 1 else y in
  let era := y / 400 in
  let yoe := y - era * 400 in
  let doy := (153 * (if 2 <? m then m - 3 else m + 9) + 2) / 5 + d - 1 in
  let doe := yoe * 365 + yoe / 4 - yoe / 100 + doy in
  era * 146097 + doe - 719468.

Definition is_leap (y : Z) : bool :=
  (y mod 4 =? 0) && (negb (y mod 100 =? 0) || (y mod 400 =? 0)).

Definition days_in_month (y m : Z) : Z :=
  if m =? 2 then (if is_leap y then 29 else 28)
  else if (m =? 4) || (m =? 6) || (m =? 9) || (m =? 11) then 30
  else 31.

Definition digit (n : Z) : ascii := ascii_of_nat (48 + Z.to_nat (n mod 10)).

(** [n] written with exactly [w] decimal digits. *)
Fixpoint pad (w : nat) (n : Z) : string :=
  match w with
  | O => EmptyString
  | S w' => pad w' (n / 10) +:+ String (digit n) EmptyString
  end.

Definition year_string (y : Z) : string :=
  if (0 <=? y) && (y <=? 9999) then pad 4 y
  else if y <? 0 then "-" +:+ pad 6 (- y)
  else "+" +:+ pad 6 y.

Definition toISOString (t : Z) : string :=
  let '(y, m, d) := civil_from_days (Day t) in
  year_string y +:+ "-" +:+ pad 2 m +:+ "-" +:+ pad 2 d +:+ "T" +:+
  pad 2 (HourFromTime t) +:+ ":" +:+ pad 2 (MinFromTime t) +:+ ":" +:+
  pad 2 (SecFromTime t) +:+ "." +:+ pad 3 (msFromTime t) +:+ "Z".

(** *** Reading a timestamp back

    The recogniser of the form [YYYY-MM-DDTHH:mm:ss.sssZ]: every field in
    its calendar range, the [Z] designator for UTC, nothing after it.  It
    returns the time value the string denotes. *)

Definition digit_val (c : ascii) : option Z :=
  let n := Z.of_nat (nat_of_ascii c) in
  if (48 <=? n) && (n <=? 57) then Some (n - 48) else None.

Fixpoint digits (w : nat) (acc : Z) (s : string) : option (Z * string) :=
  match w with
  | O => Some (acc, s)
  | S w' =>
      match s with
      | String c s' => d ← digit_val c; digits w' (10 * acc + d) s'
      | EmptyString => None
      end
  end.

Definition expect (c : ascii) (s : string) : option string :=
  match s with
  | String c' s' => if Ascii.eqb c c' then Some s' else None
  | EmptyString => None
  end.

Definition in_range (lo v hi : Z) : option unit :=
  if (lo <=? v) && (v <=? hi) then Some tt else None.

Definition parse (s : string) : option Z :=
  '(y, s) ← digits 4 0 s;
  s ← expect "-" s;
  '(m, s) ← digits 2 0 s;
  s ← expect "-" s;
  '(d, s) ← digits 2 0 s;
  s ← expect "T" s;
  '(h, s) ← digits 2 0 s;
  s ← expect ":" s;
  '(mi, s) ← digits 2 0 s;
  s ← expect ":" s;
  '(sec, s) ← digits 2 0 s;
  s ← expect "." s;
  '(ms, s) ← digits 3 0 s;
  s ← expect "Z" s;
  _ ← in_range 1 m 12;
  _ ← in_range 1 d (days_in_month y m);
  _ ← in_range 0 h 23;
  _ ← in_range 0 mi 59;
  _ ← in_range 0 sec 59;
  match s with
  | EmptyString =>
      Some (days_from_civil y m d * msPerDay
            + h * 3600000 + mi * 60000 + sec * 1000 + ms)
  | String _ _ => None
  end.

(** A string is a valid ISO-8601 UTC timestamp when [parse] accepts it. *)
Definition valid (s : string) : bool :=
  match parse s with Some _ => true | None => false end.

(** The first and one past the last instant with a four-digit year. *)
Definition year0000 : Z := -62167219200000.
Definition year10000 : Z := 253402300800000.

End Date.

(** ** Vinyl files *)

Inductive Contents :=
| Null
| Buffer (data : string)
| Stream.

Record File := mkFile { relative : string; contents : Contents }.

Definition isNull (file : File) : bool :=
  match contents file with Null => true | _ => false end.

Definition isStream (file : File) : bool :=
  match contents file with Stream => true | _ => false end.

Definition isBuffer (file : File) : bool :=
  match contents file with Buffer _ => true | _ => false end.

(** ** What the task does to its collaborators *)

Inductive Event :=
| Log (msg : string)
| PrepareRepo (remoteUrl cacheDir : option string)
| CheckoutBranch (name : string)
| CreateAndCheckoutBranch (name : string)
| Pull
| RemoveFiles (path : string) (r : bool)
| Dest (folder : option string) (files : list File)
| AddFiles (path : string)
| Commit (message : string)
| Push (remote : string).

(** Calls on the repository handle that change the repository or the
    branch (everything but logging and the copy through [gulp.dest]). *)
Definition is_repo_op (e : Event) : bool :=
  match e with
  | Log _ | Dest _ _ => false
  | _ => true
  end.

Definition is_pull (e : Event) : bool :=
  match e with Pull => true | _ => false end.

Definition is_commit (e : Event) : bool :=
  match e with Commit _ => true | _ => false end.

Definition is_push (e : Event) : bool :=
  match e with Push _ => true | _ => false end.

Definition is_log (e : Event) : bool :=
  match e with Log _ => true | _ => false end.

(** The calls of a trace, without the log lines. *)
Definition calls (tr : list Event) : list Event :=
  List.filter (fun e => negb (is_log e)) tr.

Definition count (p : Event -> bool) (tr : list Event) : nat :=
  length (List.filter p tr).

(** ** The collaborators: [./lib/git], [gulp.dest] and the clock

    A promise of [./lib/git] either resolves with the repository handle or
    rejects with an error.  [World] stands for the handle together with the
    working copy and everything else the calls act on. *)

Definition Error := string.

Module git.

Class Lib (World : Type) := {
  prepareRepo : option string -> option string -> World -> Error + World;
  _localBranches : World -> list string;
  _remoteBranches : World -> list string;
  _staged : World -> gmap string string;
  checkoutBranch : string -> World -> Error + World;
  createAndCheckoutBranch : string -> World -> Error + World;
  pull : World -> Error + World;
  removeFiles : string -> bool -> World -> Error + World;
  addFiles : string -> World -> Error + World;
  commit : string -> World -> Error + World;
  push : string -> World -> Error + World
}.

End git.

Module host.

Class Lib (World : Type) := {
  (** [srcStream.pipe(gulp.dest(folder))] fed with [files], until its
      ['end'] or ['error'] event. *)
  dest : option string -> list File -> World -> Error + World;
  (** The time value of [new Date()]. *)
  now : World -> Z
}.

End host.

(** ** The options object *)

Module Options.

Record t := mk {
  remoteUrl : option string;
  origin : option string;
  branch : option string;
  cacheDir : option string;
  push : option bool
}.

End Options.

(** The first argument of [module.exports]: a bare remote url or the
    options object. *)
Inductive Arg :=
| Url (remoteUrl : string)
| Opts (options : Options.t).

(** ** The plugin *)

Section Plugin.

Context {World : Type} `{!git.Lib World} `{!host.Lib World}.

(** The state of one run of the task: the world and the trace so far. *)
Record Run := mkRun { world : World; trace : list Event }.

Inductive Promise :=
| Resolved (r : Run)
| Rejected (err : Error) (r : Run).

Definition then_ (p : Promise) (k : Run -> Promise) : Promise :=
  match p with
  | Resolved r => k r
  | Rejected err r => Rejected err r
  end.

Definition emit (e : Event) (r : Run) : Run :=
  mkRun (world r) (trace r ++ [e]).

(** [gutil.log] *)
Definition log (msg : string) (r : Run) : Run := emit (Log msg) r.

(** A call on a collaborator: recorded, then resolved or rejected. *)
Definition call (e : Event) (op : World -> Error + World) (r : Run) : Promise :=
  let r' := emit e r in
  match op (world r) with
  | inr w => Resolved (mkRun w (trace r'))
  | inl err => Rejected err r'
  end.

Inductive Status :=
| Success
| Failure (err : Error).

(** [.done(function (repo) { return callback(); },
           function (err) { throw new Error(err); })] *)
Definition done (p : Promise) : Run * Status :=
  match p with
  | Resolved r => (r, Success)
  | Rejected err r => (r, Failure err)
  end.

Variable options : Arg.
Variable remote : option string.

Definition opts : Options.t :=
  match options with
  | Url url => Options.mk (Some url) remote None None None
  | Opts o => o
  end.

Definition remoteUrl : option string := Options.remoteUrl opts.
Definition origin : string := JS.or (Options.origin opts) "origin".
Definition branch : string := JS.or (Options.branch opts) "gh-pages".
Definition cacheDir : option string := Options.cacheDir opts.
Definition push : bool :=
  match Options.push opts with
  | None => true
  | Some b => b
  end.

Definition TAG : string := "[gulp-" +:+ branch +:+ "]: ".

(** The double quote character, as a string. *)
Definition quote : string := String (ascii_of_nat 34) EmptyString.

(** *** The transform *)

Definition PluginError (plugin message : string) : Error :=
  plugin +:+ ": " +:+ message.

(** [filePaths] with what the transform pushed downstream and the
    ['error'] events it emitted. *)
Record Collector := mkCollector {
  filePaths : list File;
  pushed : list File;
  errors : list Error
}.

Definition start : Collector := mkCollector [] [] [].

Definition collectFileName (file : File) (c : Collector) : Collector :=
  if isNull file then
    mkCollector (filePaths c) (pushed c ++ [file]) (errors c)
  else if isStream file then
    mkCollector (filePaths c) (pushed c)
      (errors c ++ [PluginError "gulp-gh-pages" "Stream content is not supported"])
  else
    mkCollector (filePaths c ++ [file]) (pushed c) (errors c).

Definition collect (input : list File) : Collector :=
  fold_left (fun c file => collectFileName file c) input start.

(** *** The steps of the task, one per [.then] *)

Definition step_prepare (r : Run) : Promise :=
  call (PrepareRepo remoteUrl cacheDir) (git.prepareRepo remoteUrl cacheDir) r.

Definition step_branch (r : Run) : Promise :=
  let r := log (TAG +:+ "Cloning repo") r in
  if JS.includes (git._localBranches (world r)) branch then
    let r := log (TAG +:+ "Checkout branch `" +:+ branch +:+ "`") r in
    call (CheckoutBranch branch) (git.checkoutBranch branch) r
  else if JS.includes (git._remoteBranches (world r)) (origin +:+ "/" +:+ branch) then
    let r := log (TAG +:+ "Checkout remote branch `" +:+ branch +:+ "`") r in
    call (CheckoutBranch branch) (git.checkoutBranch branch) r
  else
    let r := log (TAG +:+ "Create branch `" +:+ branch +:+ "` and checkout") r in
    call (CreateAndCheckoutBranch branch) (git.createAndCheckoutBranch branch) r.

Definition step_pull (r : Run) : Promise :=
  if JS.truthy cacheDir then
    let r := log (TAG +:+ "Updating repository") r in
    call Pull git.pull r
  else Resolved r.

Definition step_remove (r : Run) : Promise :=
  call (RemoveFiles "." true) (git.removeFiles "." true) r.

Definition step_copy (files : list File) (r : Run) : Promise :=
  let r := log (TAG +:+ "Copying files to repository") r in
  call (Dest cacheDir files) (host.dest cacheDir files) r.

Definition step_add (r : Run) : Promise :=
  call (AddFiles ".") (git.addFiles ".") r.

Definition step_push (r : Run) : Promise :=
  if push then
    let r := log (TAG +:+ "Pushing to remote.") r in
    call (Push origin) (git.push origin) r
  else Resolved r.

Definition step_commit (r : Run) : Promise :=
  let filesToBeCommitted := size (git._staged (world r)) in
  if Nat.eqb filesToBeCommitted 0 then
    Resolved (log (TAG +:+ "No files have changed.") r)
  else
    let message := "Update " +:+ Date.toISOString (host.now (world r)) in
    let r := log (TAG +:+ "Adding " +:+ pretty filesToBeCommitted +:+ " files.") r in
    let r := log (TAG +:+ "Commiting " +:+ quote +:+ message +:+ quote) r in
    then_ (call (Commit message) (git.commit message) r) step_push.

Local Notation "p >>= k" := (then_ p k) (at level 50, left associativity).

(** *** The chain of promises

    The prefixes of the chain are named after the states they reach. *)

(** REPO_READY, then BRANCH_READY. *)
Definition branch_ready (r : Run) : Promise :=
  step_prepare r >>= step_branch.

(** ... SYNCED. *)
Definition synced (r : Run) : Promise :=
  branch_ready r >>= step_pull.

(** ... CLEARED. *)
Definition cleared (r : Run) : Promise :=
  synced r >>= step_remove.

(** ... MATERIALIZED, then STAGED. *)
Definition staged (files : list File) (r : Run) : Promise :=
  cleared r >>= step_copy files >>= step_add.

(** [task]: [callback()] at once on an empty [filePaths], else the whole
    chain, ended by [.done]. *)
Definition task (files : list File) (r : Run) : Run * Status :=
  if Nat.eqb (length files) 0 then (r, Success)
  else
    done (step_prepare r
          >>= step_branch
          >>= step_pull
          >>= step_remove
          >>= step_copy files
          >>= step_add
          >>= step_commit).

(** [through.obj(collectFileName, task)] fed with [input] and ended. *)
Definition plugin (input : list File) (w : World) : Collector * (Run * Status) :=
  let c := collect input in
  (c, task (filePaths c) (mkRun w [])).

End Plugin.

Arguments Run : clear implicits.
Arguments Promise : clear implicits.

(** ** A model of the collaborators *)

(** Modelled from the spec: [./lib/git] is not part of [index.js]; what its
    calls do is taken from the contract of the repository handle (open,
    branch listing, checkout, create, pull, remove, add, commit, push) and
    their failures.  A branch is its list of commits, newest first; a commit
    is a message and a tree; a tree maps relative paths to contents.  There
    is one remote, named [origin].  The disk maps a folder to the files under
    it, by relative path. *)
Module Model.

Abbreviation Tree := (gmap string string).
Abbreviation History := (list (string * gmap string string)).

Record Repo := mkRepo {
  branches : gmap string History;
  HEAD : string;
  index : Tree;
  staged : gmap string string
}.

Record World := mkWorld {
  clock : Z;
  (** how far the clock moves during one call on a collaborator *)
  elapse : Z;
  online : bool;
  tmpdir : string;
  remote : gmap string History;
  (** the root of the working copy, once a repository is open *)
  path : option string;
  disk : gmap string Tree;
  repo : Repo
}.

Definition tip (h : History) : Tree :=
  match h with
  | [] => ∅
  | c :: _ => c.2
  end.

Definition root (w : World) : string := default (tmpdir w) (path w).

Definition worktree (w : World) : Tree := default ∅ (disk w !! root w).

Definition history (w : World) (name : string) : History :=
  default [] (branches (repo w) !! name).

Definition head_tree (w : World) : Tree := tip (history w (HEAD (repo w))).

(** A clone that has nothing checked out yet. *)
Definition unborn : Repo := mkRepo ∅ "master" ∅ ∅.

(** The world after a call: the clock has moved. *)
Definition after (w : World) (remote' : gmap string History)
    (path' : option string) (disk' : gmap string Tree) (repo' : Repo) : World :=
  mkWorld (clock w + elapse w) (elapse w) (online w) (tmpdir w)
    remote' path' disk' repo'.

Definition with_repo (w : World) (tree : Tree) (repo' : Repo) : World :=
  after w (remote w) (path w) (<[root w := tree]> (disk w)) repo'.

(** Modelled from the spec: the staged change set maps a relative path to
    its staged status; it holds the paths on which the index differs from
    the tip of the current branch. *)
Definition status (a b : option string) : option string :=
  match a, b with
  | None, None => None
  | None, Some _ => Some "A"
  | Some _, None => Some "D"
  | Some x, Some y => if String.eqb x y then None else Some "M"
  end.

Definition changes (head idx : Tree) : gmap string string :=
  merge status head idx.

(** Modelled from the spec: [open(remoteUrl, cacheDir)] ensures a local
    working copy exists at [cacheDir] (a temporary directory when it is
    absent), cloning if absent and reusing a clone that is there; it fails
    with [RepositoryUnavailable] if the remote cannot be reached. *)
Definition prepareRepo (url dir : option string) (w : World) : Error + World :=
  match url with
  | None => inl "RepositoryUnavailable"
  | Some _ =>
      if negb (online w) then inl "RepositoryUnavailable"
      else
        let d := JS.or dir (tmpdir w) in
        if JS.truthy dir && bool_decide (path w = Some d) then
          inr (after w (remote w) (path w) (disk w) (repo w))
        else
          inr (after w (remote w) (Some d) (<[d := ∅]> (disk w)) unborn)
  end.

(** Modelled from the spec: the set of local branch names, and the set of
    the [origin/name] remote names. *)
Definition _localBranches (w : World) : list string :=
  elements (dom (branches (repo w))).

Definition _remoteBranches (w : World) : list string :=
  (fun name => "origin/" +:+ name) <$> elements (dom (remote w)).

Definition switch (name : string) (h : History) (w : World) : World :=
  with_repo w (tip h)
    (mkRepo (<[name := h]> (branches (repo w))) name (tip h) ∅).

(** Modelled from the spec: [checkoutBranch(name)] switches the working
    tree to [name]; if [name] exists only as a remote ref it creates a
    local tracking branch pointed at it; it fails with [CheckoutFailed] on a
    dirty tree. *)
Definition checkoutBranch (name : string) (w : World) : Error + World :=
  if negb (bool_decide (staged (repo w) = ∅)) then inl "CheckoutFailed"
  else
    match branches (repo w) !! name with
    | Some h => inr (switch name h w)
    | None =>
        match remote w !! name with
        | Some h => inr (switch name h w)
        | None => inl "CheckoutFailed"
        end
    end.

(** Modelled from the spec: [createAndCheckoutBranch(name)] creates an
    orphan branch named [name] and switches to it; the working tree and
    the index stay as they are. *)
Definition createAndCheckoutBranch (name : string) (w : World) : Error + World :=
  inr (after w (remote w) (path w) (disk w)
         (mkRepo (<[name := []]> (branches (repo w))) name
            (index (repo w)) (changes ∅ (index (repo w))))).

(** Modelled from the spec: [pull()] fast-forwards the current branch from
    its remote counterpart; it is a no-op without error if there is no
    upstream; it fails with [SyncFailed] on divergent history. *)
Definition pull (w : World) : Error + World :=
  let b := HEAD (repo w) in
  match remote w !! b with
  | None => inr (after w (remote w) (path w) (disk w) (repo w))
  | Some theirs =>
      if online w && bool_decide (history w b `suffix_of` theirs) then
        inr (switch b theirs w)
      else inl "SyncFailed"
  end.

(** Whether [f] lies under [p]; [.] is the root of the working copy. *)
Definition under (p : string) (r : bool) (f : string) : bool :=
  if String.eqb p "." then r
  else String.eqb p f || (r && String.prefix (p +:+ "/") f).

(** Modelled from the spec: [removeFiles(path, {recursive})] stages the
    deletion of everything under [path] in the working tree: the tracked
    files under it leave the working tree and the index. *)
Definition removeFiles (p : string) (r : bool) (w : World) : Error + World :=
  let idx := index (repo w) in
  let gone (f : string) : bool := under p r f && bool_decide (is_Some (idx !! f)) in
  let idx' := filter (fun kv => negb (under p r kv.1)) idx in
  inr (with_repo w (filter (fun kv => negb (gone kv.1)) (worktree w))
         (mkRepo (branches (repo w)) (HEAD (repo w)) idx'
            (changes (head_tree w) idx'))).

(** Modelled from the spec: [addFiles(path)] stages all changes under
    [path] and populates the staged change set. *)
Definition addFiles (p : string) (w : World) : Error + World :=
  let idx' :=
    filter (fun kv => under p true kv.1) (worktree w)
    ∪ filter (fun kv => negb (under p true kv.1)) (index (repo w)) in
  inr (with_repo w (worktree w)
         (mkRepo (branches (repo w)) (HEAD (repo w)) idx'
            (changes (head_tree w) idx'))).

(** Modelled from the spec: [commit(message)] fails with [NothingToCommit]
    only if called despite an empty staged change set. *)
Definition commit (message : string) (w : World) : Error + World :=
  let b := HEAD (repo w) in
  if bool_decide (staged (repo w) = ∅) then inl "NothingToCommit"
  else
    inr (after w (remote w) (path w) (disk w)
           (mkRepo
              (<[b := (message, index (repo w)) :: history w b]>
                 (branches (repo w)))
              b (index (repo w)) ∅)).

(** Modelled from the spec: [push(origin)] pushes the current branch to the
    named remote; it fails with [PushRejected] when the remote does not
    take it (no fast-forward, no such remote, no connection). *)
Definition push (name : string) (w : World) : Error + World :=
  let b := HEAD (repo w) in
  let theirs := default [] (remote w !! b) in
  if String.eqb name "origin" && online w
     && bool_decide (theirs `suffix_of` history w b) then
    inr (after w (<[b := history w b]> (remote w)) (path w) (disk w) (repo w))
  else inl "PushRejected".

(** Modelled from the spec: the materializer writes each artifact's
    content at its relative path under the folder, over what is there.
    [gulp.dest] itself is a library; it refuses a folder that is not a
    string. *)
Definition write (files : list File) (tree : Tree) : Tree :=
  fold_left
    (fun t file =>
       match contents file with
       | Buffer data => <[relative file := data]> t
       | _ => t
       end)
    files tree.

Definition dest (folder : option string) (files : list File) (w : World)
    : Error + World :=
  match folder with
  | None => inl "Invalid output folder"
  | Some d =>
      inr (after w (remote w) (path w)
             (<[d := write files (default ∅ (disk w !! d))]> (disk w)) (repo w))
  end.

#[global] Instance git_lib : git.Lib World := {|
  git.prepareRepo := prepareRepo;
  git._localBranches := _localBranches;
  git._remoteBranches := _remoteBranches;
  git._staged := fun w => staged (repo w);
  git.checkoutBranch := checkoutBranch;
  git.createAndCheckoutBranch := createAndCheckoutBranch;
  git.pull := pull;
  git.removeFiles := removeFiles;
  git.addFiles := addFiles;
  git.commit := commit;
  git.push := push
|}.

#[global] Instance host_lib : host.Lib World := {|
  host.dest := dest;
  host.now := clock
|}.

(** A file of the working tree, and a file of the index. *)
Definition present (w : World) (f : string) : Prop := is_Some (worktree w !! f).
Definition tracked (w : World) (f : string) : Prop := is_Some (index (repo w) !! f).

(** A machine with nothing cloned yet and an empty remote repository. *)
Definition fresh (t : Z) (dt : Z) : World :=
  mkWorld t dt true "/tmp/tmpRepo" ∅ None ∅ unborn.

End Model.


(** ** The vocabulary of the properties *)

(** The events that put files into the working copy or into the index. *)
Definition is_write (e : Event) : bool :=
  match e with
  | Dest _ _ | AddFiles _ => true
  | _ => false
  end.

Section Vocabulary.

Context {World : Type} `{!git.Lib World} `{!host.Lib World}.
Variable options : Arg.
Variable remote : option string.

Local Notation "p >>= k" := (then_ p k) (at level 50, left associativity).

(** The call that makes the branch ready is one of two. *)
Definition branch_call (e : Event) : Prop :=
  e = CheckoutBranch (branch options remote)
  \/ e = CreateAndCheckoutBranch (branch options remote).

Definition opened : Event :=
  PrepareRepo (remoteUrl options remote) (cacheDir options remote).

Definition pulled : list Event :=
  if JS.truthy (cacheDir options remote) then [Pull] else [].

(** The message of the commit. *)
Definition message_at (w : World) : string :=
  "Update " +:+ Date.toISOString (host.now w).

(** The run a promise ends in, resolved or not. *)
Definition settled (p : Promise World) : Run World :=
  match p with
  | Resolved r => r
  | Rejected _ r => r
  end.

(** [k] only ever adds to the trace, and only events of the kind [P]. *)
Definition emitting (P : Event -> Prop) (k : Run World -> Promise World) : Prop :=
  forall r, exists evs, trace (settled (k r)) = trace r ++ evs /\ Forall P evs.

(** What each step can emit. *)
Definition of_prepare (e : Event) : Prop := e = opened.

Definition of_branch (e : Event) : Prop := is_log e = true \/ branch_call e.

Definition of_pull (e : Event) : Prop := is_log e = true \/ e = Pull.

Definition of_remove (e : Event) : Prop := e = RemoveFiles "." true.

Definition of_copy (files : list File) (e : Event) : Prop :=
  is_log e = true \/ e = Dest (cacheDir options remote) files.

Definition of_add (e : Event) : Prop := e = AddFiles ".".

Definition of_commit (e : Event) : Prop :=
  is_log e = true \/ is_commit e = true \/ e = Push (origin options remote).

(** What is left of the chain once the working copy is cleared, once it
    is in sync, and once the branch is ready. *)
Definition after_clear (files : list File) (r : Run World) : Promise World :=
  step_copy options remote files r >>= step_add >>= step_commit options remote.

Definition after_sync (files : list File) (r : Run World) : Promise World :=
  step_remove r >>= after_clear files.

Definition after_branch (files : list File) (r : Run World) : Promise World :=
  step_pull options remote r >>= after_sync files.

Definition of_after_clear (files : list File) (e : Event) : Prop :=
  of_copy files e \/ of_add e \/ of_commit e.

Definition of_after_sync (files : list File) (e : Event) : Prop :=
  of_remove e \/ of_after_clear files e.

Definition of_after_branch (files : list File) (e : Event) : Prop :=
  of_pull e \/ of_after_sync files e.

Definition of_synced (e : Event) : Prop :=
  of_prepare e \/ of_branch e \/ of_pull e.

Definition of_task (files : list File) (e : Event) : Prop :=
  of_synced e \/ of_after_sync files e.

End Vocabulary.

(** Modelled from the spec: what the calls of [./lib/git] and the copy do
    to the files of the working tree ([present]) and to the files of the
    index ([tracked]).  [removeFiles] stages the deletion of everything
    under the path; the copy writes the artifacts at their relative paths
    and leaves version control alone; [addFiles] stages what is under the
    path; [commit] and [push] leave the working tree and the index as they
    are. *)
Class FileContract {World : Type} `{!git.Lib World} `{!host.Lib World}
    (present tracked : World -> string -> Prop) : Prop := {
  remove_all w w' f :
    git.removeFiles "." true w = inr w' ->
    tracked w f -> ~ present w' f /\ ~ tracked w' f;
  dest_only folder files w w' f :
    host.dest folder files w = inr w' ->
    ~ In f (map relative files) ->
    (present w' f -> present w f) /\ (tracked w' f -> tracked w f);
  add_present w w' f :
    git.addFiles "." w = inr w' ->
    (present w' f -> present w f) /\ (tracked w' f -> present w f \/ tracked w f);
  commit_keeps message w w' f :
    git.commit message w = inr w' ->
    (present w' f -> present w f) /\ (tracked w' f -> tracked w f);
  push_keeps name w w' f :
    git.push name w = inr w' ->
    (present w' f -> present w f) /\ (tracked w' f -> tracked w f)
}.

(** ** Deployments on the model *)

Module Scenario.

Definition url : string := "git@github.com:user/project.git".

(** A cache directory is given; the clone is ephemeral; no push. *)
Definition cached : Arg := Opts (Options.mk (Some url) None None (Some "cache") None).
Definition ephemeral : Arg := Opts (Options.mk (Some url) None None None None).
Definition local_only : Arg :=
  Opts (Options.mk (Some url) None None (Some "cache") (Some false)).

Definition index_html : File := mkFile "index.html" (Buffer "A").
Definition a_html : File := mkFile "a.html" (Buffer "A").
Definition b_html : File := mkFile "b.html" (Buffer "B").
Definition dist : File := mkFile "dist" Null.
Definition video : File := mkFile "video.mp4" Stream.

(** 2014-05-13T16:53:20.000Z; every call takes five milliseconds. *)
Definition clean : Model.World := Model.fresh 1400000000000 5.

(** The same with a clock that does not move during the run. *)
Definition frozen : Model.World := Model.fresh 1400000000000 0.

(** After [a.html] has been deployed from [clean]. *)
Definition deployed : Model.World :=
  world (task cached None [a_html] (mkRun clean [])).1.

(** The run that a promise of the chain resolved with. *)
Definition resolved (p : Promise Model.World) : Run Model.World := settled p.

End Scenario.

(** ** The vocabulary of the further properties *)

Section Outcomes.

Context {World : Type} `{!git.Lib World} `{!host.Lib World}.
Variable options : Arg.
Variable remote : option string.

(** What the collaborators answer to the call an event records. *)
Definition perform (e : Event) (w : World) : Error + World :=
  match e with
  | Log _ => inr w
  | PrepareRepo url dir => git.prepareRepo url dir w
  | CheckoutBranch name => git.checkoutBranch name w
  | CreateAndCheckoutBranch name => git.createAndCheckoutBranch name w
  | Pull => git.pull w
  | RemoveFiles path r => git.removeFiles path r w
  | Dest folder files => host.dest folder files w
  | AddFiles path => git.addFiles path w
  | Commit message => git.commit message w
  | Push name => git.push name w
  end.

(** A rejected promise holds the error of the call recorded last, made on
    the world it holds. *)
Definition rejected_by_last (p : Promise World) : Prop :=
  match p with
  | Resolved _ => True
  | Rejected err r =>
      exists before e, trace r = before ++ [e] /\ perform e (world r) = inl err
  end.

(** The calls of the comment of [task], steps 1 to 8, in their order. *)
Definition plan (files : list File) (e : Event) (message : string) : list Event :=
  [opened options remote; e] ++ pulled options remote
  ++ [RemoveFiles "." true; Dest (cacheDir options remote) files; AddFiles ".";
      Commit message; Push (origin options remote)].

(** A log line starts with [TAG]. *)
Definition tagged (e : Event) : Prop :=
  forall msg, e = Log msg -> exists text, msg = TAG options remote +:+ text.

End Outcomes.

(** * Properties *)

(** ** Reading the values of JavaScript *)

Lemma includes_In (xs : list string) (x : string) :
  JS.includes xs x = true <-> In x xs.
Proof.
  unfold JS.includes. rewrite existsb_exists. split.
  - intros (y & Hy & Heq). apply String.eqb_eq in Heq. now subst.
  - intros Hx. exists x. split; [assumption | apply String.eqb_refl].
Qed.

Lemma includes_not_In (xs : list string) (x : string) :
  JS.includes xs x = false <-> ~ In x xs.
Proof.
  rewrite <- includes_In. destruct (JS.includes xs x); split; congruence.
Qed.

Lemma truthy_spec (v : option string) :
  JS.truthy v = true <-> exists s, v = Some s /\ s <> EmptyString.
Proof.
  destruct v as [s|]; simpl.
  - destruct (String.eqb_spec s EmptyString) as [->|Hne]; simpl; split.
    + discriminate.
    + intros (s' & [= <-] & Hs'). congruence.
    + intros _. now exists s.
    + reflexivity.
  - split; [discriminate | intros (s & [=] & _)].
Qed.

(** ** The transform *)

Section Collector.

Lemma collect_snoc (input : list File) (file : File) :
  collect (input ++ [file]) = collectFileName file (collect input).
Proof. unfold collect. now rewrite fold_left_app. Qed.

(** What the transform has kept, pushed on and complained about. *)
Lemma collect_filePaths (input : list File) :
  filePaths (collect input) = List.filter isBuffer input.
Proof.
  induction input as [|file input IH] using rev_ind; [reflexivity|].
  rewrite collect_snoc, List.filter_app. simpl.
  destruct file as [rel [|data|]]; cbn; rewrite IH; auto using app_nil_r.
Qed.

Lemma collect_pushed (input : list File) :
  pushed (collect input) = List.filter isNull input.
Proof.
  induction input as [|file input IH] using rev_ind; [reflexivity|].
  rewrite collect_snoc, List.filter_app. simpl.
  destruct file as [rel [|data|]]; cbn; rewrite IH; auto using app_nil_r.
Qed.

Lemma collect_errors (input : list File) :
  length (errors (collect input)) = length (List.filter isStream input).
Proof.
  induction input as [|file input IH] using rev_ind; [reflexivity|].
  rewrite collect_snoc, List.filter_app. simpl.
  destruct file as [rel [|data|]]; cbn; rewrite ?length_app, IH; simpl; lia.
Qed.

Lemma filter_all {A} (p : A -> bool) (l : list A) :
  forallb p l = true -> List.filter p l = l.
Proof.
  induction l as [|x l IH]; simpl; [reflexivity|].
  destruct (p x); simpl; [|discriminate]. intros H. now rewrite IH.
Qed.

Lemma filter_none {A} (p q : A -> bool) (l : list A) :
  (forall x, p x = true -> q x = false) ->
  forallb p l = true -> List.filter q l = [].
Proof.
  intros Hpq. induction l as [|x l IH]; simpl; [reflexivity|].
  destruct (p x) eqn:Hp; simpl; [|discriminate].
  rewrite (Hpq x Hp). exact IH.
Qed.

End Collector.

(** ** What a run has called *)

Lemma calls_app (tr1 tr2 : list Event) : calls (tr1 ++ tr2) = calls tr1 ++ calls tr2.
Proof. apply List.filter_app. Qed.

Lemma count_app (p : Event -> bool) (tr1 tr2 : list Event) :
  count p (tr1 ++ tr2) = (count p tr1 + count p tr2)%nat.
Proof. unfold count. now rewrite List.filter_app, length_app. Qed.

Lemma count_calls (p : Event -> bool) (tr : list Event) :
  (forall msg, p (Log msg) = false) -> count p (calls tr) = count p tr.
Proof.
  intros Hp. unfold count, calls. induction tr as [|e tr IH]; [reflexivity|].
  destruct e; simpl; rewrite ?Hp; simpl;
    try match goal with |- context [if p ?e then _ else _] => destruct (p e) end;
    simpl; auto.
Qed.

Lemma count_zero (p : Event -> bool) (tr : list Event) :
  count p tr = 0%nat <-> forall e, In e tr -> p e = false.
Proof.
  unfold count. induction tr as [|e tr IH]; simpl.
  - split; [intros _ e [] | reflexivity].
  - destruct (p e) eqn:He; simpl.
    + split; [discriminate|]. intros H. specialize (H e (or_introl eq_refl)). congruence.
    + rewrite IH. split.
      * intros H e' [<-|Hin]; auto.
      * intros H e' Hin. apply H. now right.
Qed.

(** ** The chain of promises *)

Ltac unfold_steps :=
  unfold staged, cleared, synced, branch_ready, step_prepare, step_branch,
    step_pull, step_remove, step_copy, step_add, step_commit, step_push,
    call, log, emit, then_, done in *.

(** One case distinction on what a collaborator answers or on a test of
    the task, in the goal. *)
Ltac split_goal :=
  match goal with
  | |- context [if ?b then _ else _] => destruct b eqn:?
  | |- context [match ?op with inl _ => _ | inr _ => _ end] => destruct op eqn:?
  end.

(** The same in a hypothesis that says how a promise ended. *)
Ltac split_hyp H :=
  match type of H with
  | context [if ?b then _ else _] => destruct b eqn:?
  | context [match ?op with inl _ => _ | inr _ => _ end] => destruct op eqn:?
  end.

Ltac run_goal := repeat (split_goal; cbn [world trace fst snd]).
Ltac run_hyp H := repeat (split_hyp H; cbn [world trace fst snd] in H); try discriminate H.

Section Chain.

Context {World : Type} `{!git.Lib World} `{!host.Lib World}.
Variable options : Arg.
Variable remote : option string.

Local Notation "p >>= k" := (then_ p k) (at level 50, left associativity).

Lemma then_resolved (p : Promise World) (k : Run World -> Promise World) (r' : Run World) :
  p >>= k = Resolved r' -> exists r, p = Resolved r /\ k r = Resolved r'.
Proof. destruct p as [r|err r]; simpl; [eauto | discriminate]. Qed.

Lemma then_settled (P : Event -> Prop) (p : Promise World)
    (k : Run World -> Promise World) :
  emitting P k ->
  exists evs, trace (settled (p >>= k)) = trace (settled p) ++ evs /\ Forall P evs.
Proof.
  intros Hk. destruct p as [r|err r]; simpl.
  - apply Hk.
  - exists []. now rewrite app_nil_r.
Qed.

Lemma emitting_then (P : Event -> Prop) (k1 k2 : Run World -> Promise World) :
  emitting P k1 -> emitting P k2 -> emitting P (fun r => k1 r >>= k2).
Proof.
  intros H1 H2 r. destruct (H1 r) as (evs1 & E1 & F1).
  destruct (then_settled P (k1 r) k2 H2) as (evs2 & E2 & F2).
  exists (evs1 ++ evs2). split.
  - now rewrite E2, E1, app_assoc.
  - now apply Forall_app.
Qed.

Lemma emitting_weaken (P Q : Event -> Prop) (k : Run World -> Promise World) :
  (forall e, P e -> Q e) -> emitting P k -> emitting Q k.
Proof.
  intros HPQ Hk r. destruct (Hk r) as (evs & E & F).
  exists evs. split; [assumption|]. eapply Forall_impl; eauto.
Qed.

Ltac emitted :=
  intros r; unfold_steps; cbn [world trace]; run_goal; cbn [settled trace];
  rewrite <- ?app_assoc;
  first [ eexists; split; [reflexivity|]
        | exists []; split; [now rewrite app_nil_r|] ];
  repeat match goal with |- Forall _ _ => constructor end;
  unfold of_prepare, of_branch, of_pull, of_remove, of_copy, of_add, of_commit,
    opened, branch_call; cbn; auto.

Lemma emitting_prepare :
  emitting (of_prepare options remote) (step_prepare options remote).
Proof. emitted. Qed.

Lemma emitting_branch :
  emitting (of_branch options remote) (step_branch options remote).
Proof. emitted. Qed.

Lemma emitting_pull : emitting of_pull (step_pull options remote).
Proof. emitted. Qed.

Lemma emitting_remove : emitting of_remove step_remove.
Proof. emitted. Qed.

Lemma emitting_copy (files : list File) :
  emitting (of_copy options remote files) (step_copy options remote files).
Proof. emitted. Qed.

Lemma emitting_add : emitting of_add step_add.
Proof. emitted. Qed.

Lemma emitting_commit :
  emitting (of_commit options remote) (step_commit options remote).
Proof. emitted. Qed.

Lemma emitting_after_clear (files : list File) :
  emitting (of_after_clear options remote files) (after_clear options remote files).
Proof.
  unfold after_clear, of_after_clear.
  repeat (apply emitting_then with (k2 := _)).
  - eapply emitting_weaken, emitting_copy. auto.
  - eapply emitting_weaken, emitting_add. auto.
  - eapply emitting_weaken, emitting_commit. auto.
Qed.

Lemma emitting_after_sync (files : list File) :
  emitting (of_after_sync options remote files) (after_sync options remote files).
Proof.
  unfold after_sync, of_after_sync. apply emitting_then with (k2 := _).
  - eapply emitting_weaken, emitting_remove. auto.
  - eapply emitting_weaken, emitting_after_clear. auto.
Qed.

Lemma emitting_after_branch (files : list File) :
  emitting (of_after_branch options remote files) (after_branch options remote files).
Proof.
  unfold after_branch, of_after_branch. apply emitting_then with (k2 := _).
  - eapply emitting_weaken, emitting_pull. auto.
  - eapply emitting_weaken, emitting_after_sync. auto.
Qed.

Lemma task_nonempty (files : list File) (r : Run World) :
  files <> [] ->
  task options remote files r
  = done (staged options remote files r >>= step_commit options remote).
Proof. destruct files; [congruence | reflexivity]. Qed.

Lemma task_from_branch (files : list File) (r : Run World) :
  files <> [] ->
  task options remote files r
  = done (branch_ready options remote r >>= (after_branch options remote) files).
Proof.
  intros Hne. rewrite task_nonempty by assumption.
  unfold staged, cleared, synced, after_branch, after_sync, after_clear.
  destruct (branch_ready options remote r) as [r1|err r1]; [|reflexivity].
  cbn [then_]. destruct (step_pull options remote r1) as [r2|err r2]; [|reflexivity].
  cbn [then_]. now destruct (step_remove r2).
Qed.

Lemma done_settled (p : Promise World) : (done p).1 = settled p.
Proof. now destruct p. Qed.


Lemma branch_ready_resolved (r r1 : Run World) :
  branch_ready options remote r = Resolved r1 ->
  exists e, branch_call options remote e
    /\ calls (trace r1) = calls (trace r) ++ [opened options remote; e].
Proof.
  intros Hr. unfold_steps. cbn [world trace] in Hr. run_hyp Hr.
  all: injection Hr as <-; cbn [trace]; rewrite <- !app_assoc, calls_app.
  all: unfold branch_call; eexists; split; [|reflexivity]; auto.
Qed.

Lemma synced_resolved (r r2 : Run World) :
  synced options remote r = Resolved r2 ->
  exists r1, branch_ready options remote r = Resolved r1
    /\ calls (trace r2) = calls (trace r1) ++ pulled options remote.
Proof.
  intros Hr. apply then_resolved in Hr as (r1 & Hr1 & Hr).
  exists r1. split; [assumption|].
  unfold step_pull, pulled, call, log, emit in *.
  destruct (JS.truthy _); cbn [world trace] in Hr.
  - destruct (git.pull _); [discriminate|]. injection Hr as <-. cbn [trace].
    now rewrite <- app_assoc, calls_app.
  - injection Hr as <-. now rewrite app_nil_r.
Qed.

Lemma cleared_resolved (r r3 : Run World) :
  cleared options remote r = Resolved r3 ->
  exists r2, synced options remote r = Resolved r2
    /\ git.removeFiles "." true (world r2) = inr (world r3)
    /\ trace r3 = trace r2 ++ [RemoveFiles "." true].
Proof.
  intros Hr. apply then_resolved in Hr as (r2 & Hr2 & Hr).
  exists r2. split; [assumption|].
  unfold step_remove, call, emit in Hr.
  destruct (git.removeFiles _ _ _); [discriminate|]. now injection Hr as <-.
Qed.

Lemma staged_resolved (files : list File) (r r5 : Run World) :
  staged options remote files r = Resolved r5 ->
  exists r3 w4, cleared options remote r = Resolved r3
    /\ host.dest (cacheDir options remote) files (world r3) = inr w4
    /\ git.addFiles "." w4 = inr (world r5)
    /\ calls (trace r5)
       = calls (trace r3) ++ [Dest (cacheDir options remote) files; AddFiles "."].
Proof.
  intros Hr. apply then_resolved in Hr as (r4 & Hr4 & Hr).
  apply then_resolved in Hr4 as (r3 & Hr3 & Hr4).
  exists r3, (world r4). split; [assumption|].
  unfold step_copy, step_add, call, log, emit in *. cbn [world trace] in *.
  destruct (host.dest _ _ _); [discriminate|]. injection Hr4 as <-.
  cbn [world trace] in Hr.
  destruct (git.addFiles _ _); [discriminate|]. injection Hr as <-.
  cbn [world trace]. rewrite <- !app_assoc, calls_app. auto.
Qed.

(** Every call of a run that has staged its files. *)
Lemma staged_calls (files : list File) (r r5 : Run World) :
  staged options remote files r = Resolved r5 ->
  exists e, branch_call options remote e
    /\ calls (trace r5)
       = calls (trace r) ++ [opened options remote; e] ++ pulled options remote
         ++ [RemoveFiles "." true; Dest (cacheDir options remote) files; AddFiles "."].
Proof.
  intros Hr.
  apply staged_resolved in Hr as (r3 & w4 & Hr3 & _ & _ & E5).
  apply cleared_resolved in Hr3 as (r2 & Hr2 & _ & E3).
  apply synced_resolved in Hr2 as (r1 & Hr1 & E2).
  apply branch_ready_resolved in Hr1 as (e & He & E1).
  exists e. split; [assumption|].
  rewrite E5, E3, calls_app, E2, E1. cbn. now rewrite <- !app_assoc.
Qed.

End Chain.

(** ** The empty deployment, the branch and the sync step *)

Section Orchestration.

Context {World : Type} `{!git.Lib World} `{!host.Lib World}.
Variable options : Arg.
Variable remote : option string.

(** C1. With no collected artifact the task calls nothing (its run is the
    one it started from, world and trace) and reports success at once. *)
Theorem empty_artifacts_short_circuit (w : World) :
  task options remote [] (mkRun w []) = (mkRun w [], Success)
  /\ count is_repo_op (trace (task options remote [] (mkRun w [])).1) = 0%nat.
Proof. split; reflexivity. Qed.

(** C2. Branch resolution. On the branch lists of the handle that
    [prepareRepo] resolved with, the call after [prepareRepo] is
    [checkoutBranch] when the branch is a local one, else
    [checkoutBranch] when [origin/branch] is a remote one, else
    [createAndCheckoutBranch]. *)
Theorem branch_resolution_order (files : list File) (w w1 : World) :
  files <> [] ->
  git.prepareRepo (remoteUrl options remote) (cacheDir options remote) w = inr w1 ->
  let b := branch options remote in
  let tr := calls (trace (task options remote files (mkRun w [])).1) in
  exists rest,
    (In b (git._localBranches w1) ->
     tr = opened options remote :: CheckoutBranch b :: rest) /\
    (~ In b (git._localBranches w1) ->
     In (origin options remote +:+ "/" +:+ b) (git._remoteBranches w1) ->
     tr = opened options remote :: CheckoutBranch b :: rest) /\
    (~ In b (git._localBranches w1) ->
     ~ In (origin options remote +:+ "/" +:+ b) (git._remoteBranches w1) ->
     tr = opened options remote :: CreateAndCheckoutBranch b :: rest).
Proof.
  intros Hne Hprep b tr. subst tr.
  rewrite task_from_branch, done_settled by assumption.
  destruct (then_settled _ (branch_ready options remote (mkRun w []))
              (after_branch options remote files)
              (emitting_after_branch options remote files)) as (evs & -> & _).
  rewrite calls_app. exists (calls evs).
  unfold_steps. cbn [world trace]. rewrite Hprep. cbn [world trace].
  fold b.
  destruct (JS.includes (git._localBranches w1) b) eqn:Hl;
    [|destruct (JS.includes (git._remoteBranches w1) _) eqn:Hr].
  all: rewrite ?includes_In, ?includes_not_In in *.
  all: repeat split; intros; try contradiction.
  all: cbn [world trace]; run_goal; reflexivity.
Qed.

Lemma no_pull_in (P : Event -> Prop) (evs : list Event) :
  (forall e, P e -> e <> Pull) -> Forall P evs -> ~ In Pull (calls evs).
Proof.
  intros HP F Hin. unfold calls in Hin. apply List.filter_In in Hin as [Hin _].
  rewrite List.Forall_forall in F. exact (HP _ (F _ Hin) eq_refl).
Qed.

(** In a run with artifacts whose branch got ready, [pull] is called
    exactly when [cacheDir] is truthy; when it is not, the call after the
    branch call is the removal. *)
Lemma pull_iff_truthy (files : list File) (w : World) (r1 : Run World) :
  files <> [] ->
  branch_ready options remote (mkRun w []) = Resolved r1 ->
  let tr := calls (trace (task options remote files (mkRun w [])).1) in
  (In Pull tr <-> JS.truthy (cacheDir options remote) = true)
  /\ (JS.truthy (cacheDir options remote) = false ->
      exists rest, tr = calls (trace r1) ++ RemoveFiles "." true :: rest).
Proof.
  intros Hne Hr1 tr. subst tr.
  rewrite task_from_branch, Hr1, done_settled by assumption. cbn [then_].
  destruct (branch_ready_resolved _ _ _ _ Hr1) as (e & He & E1).
  cbn [trace calls List.filter app] in E1.
  unfold after_branch.
  destruct (JS.truthy (cacheDir options remote)) eqn:Hc.
  - split; [|discriminate]. split; [reflexivity|]. intros _.
    destruct (then_settled _ (step_pull options remote r1) _
                (emitting_after_sync options remote files)) as (evs & -> & _).
    rewrite calls_app. apply in_or_app. left.
    unfold step_pull, call, log, emit. rewrite Hc. cbn [world trace].
    destruct (git.pull _); cbn [settled trace]; rewrite <- app_assoc, calls_app;
      apply in_or_app; right; cbn; auto.
  - unfold step_pull. rewrite Hc. cbn [then_]. unfold after_sync.
    destruct (then_settled _ (step_remove r1) _
                (emitting_after_clear options remote files)) as (evs & -> & F).
    assert (E : trace (settled (step_remove r1)) = trace r1 ++ [RemoveFiles "." true])
      by (unfold step_remove, call, emit; now destruct (git.removeFiles _ _ _)).
    rewrite E, <- app_assoc, calls_app. cbn [app]. split.
    + split; [|discriminate]. intros Hin. exfalso.
      apply in_app_or in Hin as [Hin|Hin].
      * rewrite E1 in Hin. unfold opened in Hin.
        destruct He as [-> | ->]; cbn in Hin; intuition discriminate.
      * change (RemoveFiles "." true :: evs) with ([RemoveFiles "." true] ++ evs) in Hin.
        revert Hin. apply no_pull_in with (P := of_after_sync options remote files).
        -- unfold of_after_sync, of_remove, of_after_clear, of_copy, of_add, of_commit.
           intros e' He' ->. cbn in He'. intuition discriminate.
        -- apply Forall_app. split.
           ++ constructor; [now left | constructor].
           ++ eapply Forall_impl; [exact F|]. intros e' He'. now right.
    + intros _. exists (calls evs). reflexivity.
Qed.

(** C3, as the task has it. In a run with artifacts whose branch got
    ready, [pull] is called exactly when a cache directory is given and is
    not the empty string; when [pull] is not called, the call after the
    branch call is the removal. *)
Theorem pull_iff_cacheDir (files : list File) (w : World) (r1 : Run World) :
  files <> [] ->
  branch_ready options remote (mkRun w []) = Resolved r1 ->
  let tr := calls (trace (task options remote files (mkRun w [])).1) in
  (In Pull tr <->
   exists dir, cacheDir options remote = Some dir /\ dir <> EmptyString)
  /\ (~ In Pull tr ->
      exists rest, tr = calls (trace r1) ++ RemoveFiles "." true :: rest).
Proof.
  intros Hne Hr1 tr.
  destruct (pull_iff_truthy files w r1 Hne Hr1) as [Hiff Hskip]. fold tr in Hiff, Hskip.
  rewrite truthy_spec in Hiff. split; [exact Hiff|].
  intros Hno. apply Hskip.
  destruct (JS.truthy (cacheDir options remote)) eqn:Hc; [|reflexivity].
  exfalso. apply Hno, Hiff. now apply truthy_spec.
Qed.

End Orchestration.

(** ** Timestamps *)

Module DateFacts.

Import Date.

(** Linear arithmetic with the divisions by constants spelled out. *)
Ltac dlia := Z.div_mod_to_equations; lia.

(** The calendar date of a day number is a date of the calendar, and it
    is the date of that day. *)
Lemma civil_from_days_spec (z : Z) :
  let '(y, m, d) := civil_from_days z in
  1 <= m <= 12 /\ 1 <= d <= days_in_month y m /\ days_from_civil y m d = z.
Proof.
  unfold civil_from_days, days_from_civil. cbv zeta.
  set (z' := z + 719468).
  set (era := z' / 146097).
  set (doe := z' - era * 146097).
  assert (Hdoe : 0 <= doe <= 146096) by (subst doe era; dlia).
  set (yoe := (doe - doe / 1460 + doe / 36524 - doe / 146096) / 365).
  assert (Hyoe : 0 <= yoe <= 399) by (subst yoe; dlia).
  set (doy := doe - (365 * yoe + yoe / 4 - yoe / 100)).
  assert (Hdoy : 0 <= doy <= 365) by (subst doy yoe; dlia).
  assert (Hleap : doy = 365 ->
            (yoe + 1) mod 4 = 0 /\ ((yoe + 1) mod 100 <> 0 \/ yoe + 1 = 400))
    by (subst doy yoe; dlia).
  set (mp := (5 * doy + 2) / 153).
  assert (Hmp : 0 <= mp <= 11) by (subst mp; dlia).
  set (d := doy - (153 * mp + 2) / 5 + 1).
  assert (Hd : 1 <= d <= 31) by (subst d mp; dlia).
  assert (Hera : (yoe + era * 400) / 400 = era) by dlia.
  destruct (Z.ltb_spec mp 10) as [Hlt|Hge].
  - destruct (Z.leb_spec (mp + 3) 2); [lia|].
    split; [lia|]. split.
    + split; [lia|]. unfold days_in_month.
      destruct (Z.eqb_spec (mp + 3) 2); [lia|].
      repeat match goal with
             | |- context [Z.eqb ?a ?b] => destruct (Z.eqb_spec a b)
             end; cbn [orb]; subst d mp; dlia.
    + destruct (Z.ltb_spec 2 (mp + 3)); [|lia].
      replace (mp + 3 - 3) with mp by lia.
      rewrite Hera.
      replace (yoe + era * 400 - era * 400) with yoe by lia.
      subst d doy doe z'. dlia.
  - destruct (Z.leb_spec (mp - 9) 2); [|lia].
    split; [lia|]. split.
    + split; [lia|]. unfold days_in_month, is_leap.
      repeat match goal with
             | |- context [Z.eqb ?a ?b] => destruct (Z.eqb_spec a b)
             end; cbn [orb andb negb]; subst d mp; dlia.
    + destruct (Z.ltb_spec 2 (mp - 9)); [lia|].
      replace (mp - 9 + 9) with mp by lia.
      replace (yoe + era * 400 + 1 - 1) with (yoe + era * 400) by lia.
      rewrite Hera.
      replace (yoe + era * 400 - era * 400) with yoe by lia.
      subst d doy doe z'. dlia.
Qed.

(** Four digits are enough for the year from 0000-01-01 up to, not
    including, 10000-01-01. *)
Lemma civil_year_range (t : Z) :
  year0000 <= t < year10000 ->
  let '(y, _, _) := civil_from_days (Day t) in 0 <= y <= 9999.
Proof.
  unfold year0000, year10000, Day, msPerDay, civil_from_days. cbv zeta.
  intros Ht.
  assert (Hz : -719528 <= t / 86400000 < 2932897) by dlia.
  set (z' := t / 86400000 + 719468) in *.
  set (era := z' / 146097).
  set (doe := z' - era * 146097).
  assert (Hdoe : 0 <= doe <= 146096) by (subst doe era; dlia).
  set (yoe := (doe - doe / 1460 + doe / 36524 - doe / 146096) / 365).
  assert (Hyoe : 0 <= yoe <= 399) by (subst yoe; dlia).
  set (doy := doe - (365 * yoe + yoe / 4 - yoe / 100)).
  assert (Hdoy : 0 <= doy <= 365) by (subst doy yoe; dlia).
  set (mp := (5 * doy + 2) / 153).
  assert (Hmp : 0 <= mp <= 11) by (subst mp; dlia).
  assert (Hera : -1 <= era <= 24) by (subst era z'; dlia).
  assert (Hfirst : era = -1 -> yoe = 399 /\ 306 <= doy).
  { intros E. assert (146037 <= doe) by (subst doe z'; dlia).
    subst doy yoe. dlia. }
  assert (Hlast : era = 24 -> yoe < 399 \/ doy < 306).
  { intros E. assert (doe < 146037) by (subst doe z'; dlia).
    subst doy yoe. dlia. }
  destruct (Z.ltb_spec mp 10);
    match goal with |- context [Z.leb ?a 2] => destruct (Z.leb_spec a 2) end;
    try lia; subst mp; dlia.
Qed.

(** *** Digits *)

Lemma append_assoc (s1 s2 s3 : string) : (s1 +:+ s2) +:+ s3 = s1 +:+ (s2 +:+ s3).
Proof.
  induction s1 as [|c s1 IH]; [reflexivity|].
  change (String c ((s1 +:+ s2) +:+ s3) = String c (s1 +:+ (s2 +:+ s3))).
  now rewrite IH.
Qed.

Lemma digit_val_digit (n : Z) : digit_val (digit n) = Some (n mod 10).
Proof.
  unfold digit. remember (n mod 10) as k eqn:Ek.
  assert (Hk : 0 <= k < 10) by (subst k; dlia). clear Ek.
  assert (Hcases : k = 0 \/ k = 1 \/ k = 2 \/ k = 3 \/ k = 4 \/ k = 5 \/ k = 6
                   \/ k = 7 \/ k = 8 \/ k = 9) by lia.
  repeat destruct Hcases as [-> | Hcases]; try subst k; reflexivity.
Qed.

Lemma digits_app (w1 w2 : nat) (acc : Z) (s : string) :
  digits (w1 + w2) acc s = '(v, s') ← digits w1 acc s; digits w2 v s'.
Proof.
  revert acc s. induction w1 as [|w1 IH]; intros acc s; [reflexivity|].
  cbn [Nat.add digits]. destruct s as [|c s]; [reflexivity|].
  destruct (digit_val c) as [d|]; [|reflexivity]. cbn [mbind option_bind]. apply IH.
Qed.

Lemma digits_pad (w : nat) (n acc : Z) (rest : string) :
  0 <= n < 10 ^ Z.of_nat w ->
  digits w acc (pad w n +:+ rest) = Some (acc * 10 ^ Z.of_nat w + n, rest).
Proof.
  revert n acc rest. induction w as [|w IH]; intros n acc rest Hn.
  - cbn. f_equal. f_equal. change (10 ^ Z.of_nat 0) with 1 in Hn. lia.
  - rewrite Nat2Z.inj_succ, Z.pow_succ_r in * by lia.
    cbn [pad]. rewrite append_assoc.
    replace (S w) with (w + 1)%nat by lia. rewrite digits_app.
    rewrite IH by dlia. cbn [mbind option_bind].
    change (String (digit n) EmptyString +:+ rest) with (String (digit n) rest).
    cbn [digits]. rewrite digit_val_digit. cbn [mbind option_bind].
    f_equal. f_equal. dlia.
Qed.

(** A field of the timestamp, then a separator, read back. *)
Lemma read_field {A} (w : nat) (n : Z) (rest : string) (k : Z * string -> option A) :
  0 <= n < 10 ^ Z.of_nat w ->
  digits w 0 (pad w n +:+ rest) ≫= k = k (n, rest).
Proof. intros Hn. now rewrite digits_pad by assumption. Qed.

Lemma read_separator {A} (c : ascii) (rest : string) (k : string -> option A) :
  expect c (String c EmptyString +:+ rest) ≫= k = k rest.
Proof.
  change (String c EmptyString +:+ rest) with (String c rest).
  cbn [expect]. now rewrite Ascii.eqb_refl.
Qed.

Lemma in_range_ok {A} (lo v hi : Z) (k : unit -> option A) :
  lo <= v <= hi -> in_range lo v hi ≫= k = k tt.
Proof.
  intros Hv. unfold in_range.
  destruct (Z.leb_spec lo v); [|lia]. destruct (Z.leb_spec v hi); [|lia].
  reflexivity.
Qed.

(** The timestamp of a time with a four-digit year reads back as that
    time: it is well formed, in UTC, and denotes the time it was made
    from. *)
Theorem parse_toISOString (t : Z) :
  year0000 <= t < year10000 -> parse (toISOString t) = Some t.
Proof.
  intros Ht. unfold toISOString.
  pose proof (civil_from_days_spec (Day t)) as Hspec.
  pose proof (civil_year_range t Ht) as Hyear.
  destruct (civil_from_days (Day t)) as [[y m] d].
  destruct Hspec as (Hm & Hd & Hdays).
  assert (Hd31 : d <= 31).
  { unfold days_in_month, is_leap in Hd.
    repeat match type of Hd with
           | context [if ?b then _ else _] => destruct b
           end; lia. }
  unfold year_string.
  destruct (Z.leb_spec 0 y); [|lia]. destruct (Z.leb_spec y 9999); [|lia].
  cbn [andb]. unfold parse.
  assert (Hday : 0 <= TimeWithinDay t < 86400000)
    by (unfold TimeWithinDay, msPerDay; dlia).
  rewrite read_field by (change (10 ^ Z.of_nat 4) with 10000; lia). cbv beta iota.
  rewrite read_separator.
  rewrite read_field by (change (10 ^ Z.of_nat 2) with 100; lia). cbv beta iota.
  rewrite read_separator.
  rewrite read_field by (change (10 ^ Z.of_nat 2) with 100; lia). cbv beta iota.
  rewrite read_separator.
  rewrite read_field
    by (change (10 ^ Z.of_nat 2) with 100; unfold HourFromTime; dlia).
  cbv beta iota. rewrite read_separator.
  rewrite read_field
    by (change (10 ^ Z.of_nat 2) with 100; unfold MinFromTime; dlia).
  cbv beta iota. rewrite read_separator.
  rewrite read_field
    by (change (10 ^ Z.of_nat 2) with 100; unfold SecFromTime; dlia).
  cbv beta iota. rewrite read_separator.
  rewrite read_field
    by (change (10 ^ Z.of_nat 3) with 1000; unfold msFromTime; dlia).
  cbv beta iota. rewrite (read_separator "Z" EmptyString).
  rewrite !in_range_ok
    by (unfold HourFromTime, MinFromTime, SecFromTime; dlia || lia).
  f_equal. rewrite Hdays.
  unfold HourFromTime, MinFromTime, SecFromTime, msFromTime, TimeWithinDay, Day,
    msPerDay. dlia.
Qed.

Corollary toISOString_valid (t : Z) :
  year0000 <= t < year10000 -> valid (toISOString t) = true.
Proof. intros Ht. unfold valid. now rewrite parse_toISOString. Qed.

End DateFacts.

(** ** Commit and push *)

Section CommitAndPush.

Context {World : Type} `{!git.Lib World} `{!host.Lib World}.
Variable options : Arg.
Variable remote : option string.

(** No commit and no push before the files are staged. *)
Lemma staged_no_commit (files : list File) (w : World) (r5 : Run World) :
  staged options remote files (mkRun w []) = Resolved r5 ->
  count is_commit (calls (trace r5)) = 0%nat
  /\ count is_push (calls (trace r5)) = 0%nat.
Proof.
  intros Hr. apply staged_calls in Hr as (e & He & ->).
  unfold opened, pulled.
  destruct He as [-> | ->]; destruct (JS.truthy _); split; reflexivity.
Qed.

Lemma size_zero (m : gmap string string) : size m = 0%nat <-> m = ∅.
Proof. apply map_size_empty_iff. Qed.

(** C4. When nothing is staged after [addFiles], the task logs, commits
    nothing, pushes nothing, leaves the world as staging left it and
    ends in success. *)
Theorem nothing_staged_no_commit (files : list File) (w : World) (r5 : Run World) :
  files <> [] ->
  staged options remote files (mkRun w []) = Resolved r5 ->
  git._staged (world r5) = ∅ ->
  let out := task options remote files (mkRun w []) in
  out.2 = Success
  /\ count is_commit (trace out.1) = 0%nat
  /\ count is_push (trace out.1) = 0%nat
  /\ out.1 = log (TAG options remote +:+ "No files have changed.") r5.
Proof.
  intros Hne Hr Hs out. subst out.
  rewrite task_nonempty, Hr by assumption. cbn [then_].
  unfold step_commit. rewrite Hs, map_size_empty. cbn [Nat.eqb done fst snd].
  destruct (staged_no_commit _ _ _ Hr) as [Hc Hp].
  rewrite count_calls in Hc, Hp by reflexivity.
  unfold log, emit. cbn [trace]. rewrite !count_app, Hc, Hp. auto.
Qed.

(** What the commit step adds to the calls when something is staged. *)
Lemma commit_step_calls (r5 : Run World) :
  git._staged (world r5) <> ∅ ->
  let message := message_at (world r5) in
  let tr := calls (trace (settled (step_commit options remote r5))) in
  match git.commit message (world r5) with
  | inl _ => tr = calls (trace r5) ++ [Commit message]
  | inr _ =>
      if push options remote
      then tr = calls (trace r5) ++ [Commit message; Push (origin options remote)]
      else tr = calls (trace r5) ++ [Commit message]
  end.
Proof.
  intros Hs message tr. subst tr message. unfold message_at.
  rewrite <- size_zero in Hs. apply Nat.eqb_neq in Hs.
  unfold_steps. cbn [world trace]. rewrite Hs.
  run_goal; cbn [settled trace]; rewrite <- ?app_assoc, calls_app; reflexivity.
Qed.

(** C5, as the task has it. When something is staged the task calls
    [commit] exactly once, with the message [Update ] followed by
    [toISOString] of the clock as it stands after staging; for a year of
    four digits that timestamp reads back as exactly that time. *)
Theorem one_commit_with_timestamp (files : list File) (w : World) (r5 : Run World) :
  files <> [] ->
  staged options remote files (mkRun w []) = Resolved r5 ->
  git._staged (world r5) <> ∅ ->
  let t := host.now (world r5) in
  let tr := trace (task options remote files (mkRun w [])).1 in
  count is_commit tr = 1%nat
  /\ In (Commit ("Update " +:+ Date.toISOString t)) tr
  /\ (Date.year0000 <= t < Date.year10000 ->
      Date.parse (Date.toISOString t) = Some t).
Proof.
  intros Hne Hr Hs t tr. subst tr.
  rewrite task_nonempty, Hr, done_settled by assumption. cbn [then_].
  destruct (staged_no_commit _ _ _ Hr) as [Hc _].
  pose proof (commit_step_calls r5 Hs) as Hcalls. cbn zeta in Hcalls.
  fold t in Hcalls. unfold message_at in Hcalls. fold t in Hcalls.
  rewrite <- (count_calls is_commit) by reflexivity.
  assert (Hin : forall e tr', In e (calls tr') -> In e tr')
    by (intros e tr' Hin; unfold calls in Hin; now apply List.filter_In in Hin).
  split; [|split].
  - destruct (git.commit _ _); [|destruct (push options remote)];
      rewrite Hcalls, count_app, Hc; reflexivity.
  - apply Hin.
    destruct (git.commit _ _); [|destruct (push options remote)];
      rewrite Hcalls; apply in_or_app; right; cbn; auto.
  - apply DateFacts.parse_toISOString.
Qed.

(** C6. When something is staged: [push] is called only when the option
    is true, only on the configured remote, only when [commit] resolved,
    and as the call right after it (and it is called whenever these
    hold); with the option false there is one [commit] call and no
    [push] call; an option left out counts as true. *)
Theorem push_gated (files : list File) (w : World) (r5 : Run World) :
  files <> [] ->
  staged options remote files (mkRun w []) = Resolved r5 ->
  git._staged (world r5) <> ∅ ->
  let message := message_at (world r5) in
  let tr := calls (trace (task options remote files (mkRun w [])).1) in
  (forall o, In (Push o) tr ->
     push options remote = true /\ o = origin options remote
     /\ (exists w6, git.commit message (world r5) = inr w6)
     /\ exists before, tr = before ++ [Commit message; Push o])
  /\ (push options remote = true ->
      (exists w6, git.commit message (world r5) = inr w6) ->
      In (Push (origin options remote)) tr)
  /\ (push options remote = false ->
      count is_commit tr = 1%nat /\ count is_push tr = 0%nat)
  /\ (Options.push (opts options remote) = None -> push options remote = true).
Proof.
  intros Hne Hr Hs message tr. subst tr.
  rewrite task_nonempty, Hr, done_settled by assumption. cbn [then_].
  destruct (staged_no_commit _ _ _ Hr) as [Hc Hp].
  pose proof (commit_step_calls r5 Hs) as Hcalls. cbn zeta in Hcalls.
  fold message in Hcalls.
  assert (Hnp : forall o, ~ In (Push o) (calls (trace r5))).
  { intros o Hin. rewrite count_zero in Hp. now specialize (Hp _ Hin). }
  split; [|split; [|split]].
  - intros o Hin.
    destruct (git.commit message (world r5)) as [err|w6] eqn:Hcommit;
      [|destruct (push options remote) eqn:Hpush];
      rewrite Hcalls in Hin |- *; apply in_app_or in Hin as [Hin|Hin];
      try (now apply Hnp in Hin); cbn in Hin;
      try (exfalso; intuition discriminate).
    destruct Hin as [Hin|[Hin|[]]]; [discriminate|]. injection Hin as <-.
    repeat split; eauto.
  - intros Hpush [w6 Hw6]. rewrite Hw6, Hpush in Hcalls. rewrite Hcalls.
    apply in_or_app. right. cbn. auto.
  - intros Hpush. rewrite Hpush in Hcalls.
    destruct (git.commit _ _); rewrite Hcalls, !count_app, Hc, Hp; split; reflexivity.
  - unfold push. now intros ->.
Qed.

End CommitAndPush.

(** ** What is copied, and when *)

Section Copy.

Context {World : Type} `{!git.Lib World} `{!host.Lib World}.
Variable options : Arg.
Variable remote : option string.

Local Notation "p >>= k" := (then_ p k) (at level 50, left associativity).

Lemma emitting_synced :
  emitting (of_synced options remote) (synced options remote).
Proof.
  unfold synced, branch_ready, of_synced.
  repeat (apply emitting_then with (k2 := _)).
  - eapply emitting_weaken, emitting_prepare. auto.
  - eapply emitting_weaken, emitting_branch. auto.
  - eapply emitting_weaken, emitting_pull. auto.
Qed.

Lemma task_from_sync (files : list File) (r : Run World) :
  files <> [] ->
  task options remote files r
  = done (synced options remote r >>= after_sync options remote files).
Proof.
  intros Hne. rewrite task_from_branch by assumption.
  unfold synced, after_branch.
  now destruct (branch_ready options remote r).
Qed.

(** Every event of a run is one of its steps'. *)
Lemma task_events (files : list File) (w : World) :
  Forall (of_task options remote files) (trace (task options remote files (mkRun w [])).1).
Proof.
  destruct files as [|file files]; [constructor|].
  rewrite task_from_sync, done_settled by discriminate.
  assert (Hk : emitting (of_task options remote (file :: files))
                 (fun r => synced options remote r
                           >>= after_sync options remote (file :: files))).
  { unfold of_task. apply emitting_then.
    - eapply emitting_weaken, emitting_synced. auto.
    - eapply emitting_weaken, emitting_after_sync. auto. }
  destruct (Hk (mkRun w [])) as (evs & -> & F). exact F.
Qed.

(** The one copy of a run goes through [gulp.dest(cacheDir)] and is fed
    with the collected files. *)
Lemma dest_event (files fs : list File) (folder : option string) (w : World) :
  In (Dest folder fs) (trace (task options remote files (mkRun w [])).1) ->
  folder = cacheDir options remote /\ fs = files.
Proof.
  intros Hin. pose proof (task_events files w) as F.
  rewrite List.Forall_forall in F. specialize (F _ Hin).
  unfold of_task, of_synced, of_after_sync, of_after_clear, of_prepare, of_branch,
    of_pull, of_remove, of_copy, of_add, of_commit, opened, branch_call in F.
  cbn in F.
  repeat match goal with
         | H : _ \/ _ |- _ => destruct H
         end; try discriminate.
  match goal with H : Dest _ _ = Dest _ _ |- _ => now injection H as -> -> end.
Qed.

(** C7. A file with stream contents makes the transform emit the error
    and nothing else: the file is not kept and not pushed on; it is in
    no list of collected files, and no copy of any run carries it. *)
Theorem stream_content_rejected (file : File) (c : Collector)
    (input : list File) (w : World) :
  isStream file = true ->
  collectFileName file c
  = mkCollector (filePaths c) (pushed c)
      (errors c ++ [PluginError "gulp-gh-pages" "Stream content is not supported"])
  /\ ~ In file (filePaths (collect input))
  /\ forall folder fs,
       In (Dest folder fs) (trace (plugin options remote input w).2.1) ->
       ~ In file fs.
Proof.
  intros Hs.
  assert (Hkept : ~ In file (filePaths (collect input))).
  { rewrite collect_filePaths. intros Hin. apply List.filter_In in Hin as [_ Hb].
    unfold isStream, isBuffer in *. destruct (contents file); discriminate. }
  split; [|split].
  - unfold collectFileName. rewrite Hs.
    unfold isStream, isNull in *. now destruct (contents file).
  - exact Hkept.
  - intros folder fs Hin. unfold plugin in Hin. cbn [snd fst] in Hin.
    apply dest_event in Hin as [_ ->]. exact Hkept.
Qed.

(** C10. A file with null contents is pushed on as it is and not kept;
    an input of such files only leaves nothing collected, so the task
    calls nothing and reports success. *)
Theorem null_files_pass_through (file : File) (c : Collector)
    (input : list File) (w : World) :
  isNull file = true ->
  collectFileName file c = mkCollector (filePaths c) (pushed c ++ [file]) (errors c)
  /\ (forallb isNull input = true ->
      plugin options remote input w
      = (mkCollector [] input [], (mkRun w [], Success))).
Proof.
  intros Hn. split.
  - unfold collectFileName. now rewrite Hn.
  - intros Hall. unfold plugin.
    assert (Hf : filePaths (collect input) = []).
    { rewrite collect_filePaths. apply filter_none with (p := isNull); [|assumption].
      intros x. unfold isNull, isBuffer. now destruct (contents x). }
    assert (Hp : pushed (collect input) = input)
      by (rewrite collect_pushed; now apply filter_all).
    assert (He : errors (collect input) = []).
    { apply length_zero_iff_nil. rewrite collect_errors.
      rewrite filter_none with (p := isNull); [reflexivity| |assumption].
      intros x. unfold isNull, isStream. now destruct (contents x). }
    destruct (collect input) as [fp pu er]. cbn in Hf, Hp, He. now subst.
Qed.

(** In a list that starts with events that write nothing, then has [x],
    whatever writes comes after [x]. *)
Lemma write_after (quiet : list Event) (x : Event) (rest l1 l2 : list Event) (e : Event) :
  Forall (fun e => is_write e = false) quiet ->
  is_write x = false ->
  quiet ++ x :: rest = l1 ++ e :: l2 ->
  is_write e = true ->
  In x l1.
Proof.
  intros Hq Hx. revert l1. induction Hq as [|a quiet Ha Hq IH]; intros l1 E He.
  - destruct l1 as [|y l1]; cbn in E; injection E as -> E; [congruence | now left].
  - destruct l1 as [|y l1]; cbn in E; injection E as -> E; [congruence|].
    right. now apply IH.
Qed.

Lemma no_write (quiet l1 l2 : list Event) (e : Event) :
  Forall (fun e => is_write e = false) quiet ->
  quiet = l1 ++ e :: l2 -> is_write e = true -> False.
Proof.
  intros Hq -> He. rewrite List.Forall_forall in Hq.
  specialize (Hq e (in_elt e l1 l2)). congruence.
Qed.

(** The removal comes first: whatever a run copies or adds, it has
    called [removeFiles('.', {r: true})] before. *)
Lemma removal_precedes_writes (files : list File) (w : World)
    (l1 l2 : list Event) (e : Event) :
  trace (task options remote files (mkRun w [])).1 = l1 ++ e :: l2 ->
  is_write e = true ->
  In (RemoveFiles "." true) l1.
Proof.
  destruct files as [|file files]; [now destruct l1|].
  rewrite task_from_sync, done_settled by discriminate.
  destruct (emitting_synced (mkRun w [])) as (quiet & Eq & Fq). cbn [trace app] in Eq.
  assert (Hquiet : Forall (fun e => is_write e = false) quiet).
  { eapply Forall_impl; [exact Fq|]. intros e'.
    unfold of_synced, of_prepare, of_branch, of_pull, opened, branch_call.
    destruct e'; cbn; intuition discriminate. }
  destruct (synced options remote (mkRun w [])) as [r2|err r2]; cbn [then_ settled] in *.
  - unfold after_sync.
    destruct (then_settled _ (step_remove r2) _
                (emitting_after_clear options remote (file :: files)))
      as (evs & -> & _).
    assert (E : trace (settled (step_remove r2)) = trace r2 ++ [RemoveFiles "." true])
      by (unfold step_remove, call, emit; now destruct (git.removeFiles _ _ _)).
    rewrite E, Eq, <- app_assoc. cbn [app]. intros Esplit He.
    eapply write_after; eauto.
  - rewrite Eq. intros Esplit He. exfalso. eapply no_write; eauto.
Qed.

End Copy.

(** ** Files of a previous deployment *)

Section Removal.

Context {World : Type} `{!git.Lib World} `{!host.Lib World}.
Variable options : Arg.
Variable remote : option string.

Local Notation "p >>= k" := (then_ p k) (at level 50, left associativity).

Lemma task_from_clear (files : list File) (r : Run World) :
  files <> [] ->
  task options remote files r
  = done (cleared options remote r >>= after_clear options remote files).
Proof.
  intros Hne. rewrite task_from_sync by assumption.
  unfold cleared, after_sync.
  now destruct (synced options remote r).
Qed.

(** Once a file is gone from the working tree and from the index, the
    rest of the chain does not bring it back unless it is an artifact. *)
Lemma gone_for_good (present tracked : World -> string -> Prop)
    `{!FileContract present tracked} (files : list File) (f : string) (r3 : Run World) :
  ~ In f (map relative files) ->
  ~ present (world r3) f /\ ~ tracked (world r3) f ->
  let w' := world (settled (after_clear options remote files r3)) in
  ~ present w' f /\ ~ tracked w' f.
Proof.
  intros Hf Hgone. unfold after_clear. unfold_steps. cbn [world trace].
  destruct (host.dest _ _ _) as [err|w4] eqn:E4; cbn [world trace settled]; [assumption|].
  assert (H4 : ~ present w4 f /\ ~ tracked w4 f)
    by (destruct (dest_only _ _ _ _ f E4 Hf); tauto).
  destruct (git.addFiles _ _) as [err|w5] eqn:E5; cbn [world trace settled]; [assumption|].
  assert (H5 : ~ present w5 f /\ ~ tracked w5 f)
    by (destruct (add_present _ _ f E5); tauto).
  destruct (Nat.eqb _ 0); cbn [world trace settled]; [assumption|].
  destruct (git.commit _ _) as [err|w6] eqn:E6; cbn [world trace settled]; [assumption|].
  assert (H6 : ~ present w6 f /\ ~ tracked w6 f)
    by (destruct (commit_keeps _ _ _ f E6); tauto).
  destruct (push options remote); cbn [world trace settled]; [|assumption].
  destruct (git.push _ _) as [err|w7] eqn:E7; cbn [world trace settled]; [assumption|].
  destruct (push_keeps _ _ _ f E7); tauto.
Qed.

(** C9. In a run with artifacts the removal of everything under the
    root is called before any copy and before [addFiles]; and, by the
    contract of the calls, once that removal has resolved, a file that
    was tracked when the working copy was in sync and that is no artifact
    is in the end neither in the working tree nor tracked. *)
Theorem removal_before_copy (files : list File) (w : World) :
  files <> [] ->
  let out := task options remote files (mkRun w []) in
  (forall l1 e l2,
     trace out.1 = l1 ++ e :: l2 -> is_write e = true ->
     In (RemoveFiles "." true) l1)
  /\ (forall (present tracked : World -> string -> Prop),
      FileContract present tracked ->
      forall r2 r3,
        synced options remote (mkRun w []) = Resolved r2 ->
        cleared options remote (mkRun w []) = Resolved r3 ->
        forall f,
          tracked (world r2) f -> ~ In f (map relative files) ->
          ~ present (world out.1) f /\ ~ tracked (world out.1) f).
Proof.
  intros Hne out. split.
  - intros l1 e l2. apply removal_precedes_writes.
  - intros present tracked HC r2 r3 H2 H3 f Ht Hf. subst out.
    rewrite task_from_clear, H3, done_settled by assumption. cbn [then_].
    apply (gone_for_good present tracked); [assumption|].
    apply cleared_resolved in H3 as (r2' & H2' & Hrm & _).
    rewrite H2 in H2'. injection H2' as <-.
    exact (remove_all _ _ f Hrm Ht).
Qed.

End Removal.

(** ** The model keeps the contract *)

Module ModelFacts.

Import Model.

Lemma worktree_with_repo (w : World) (tree : Tree) (repo' : Repo) :
  worktree (with_repo w tree repo') = tree.
Proof.
  unfold worktree, with_repo, after, root. cbn.
  now rewrite lookup_insert_eq.
Qed.

Lemma worktree_after (w : World) (remote' : gmap string History) (repo' : Repo) :
  worktree (after w remote' (path w) (disk w) repo') = worktree w.
Proof. reflexivity. Qed.

Lemma under_root (f : string) : under "." true f = true.
Proof. reflexivity. Qed.

(** Writing leaves the other paths alone. *)
Lemma write_other (files : list File) (tree : Tree) (f : string) :
  ~ In f (map relative files) -> write files tree !! f = tree !! f.
Proof.
  unfold write. revert tree.
  induction files as [|file files IH]; intros tree Hf; [reflexivity|].
  cbn [fold_left]. rewrite IH by (intros Hin; apply Hf; now right).
  destruct (contents file); try reflexivity.
  apply lookup_insert_ne. intros E. apply Hf. now left.
Qed.

#[global] Instance file_contract : FileContract present tracked.
Proof.
  split.
  - intros w w' f Hrm [x Hx]. change (removeFiles "." true w = inr w') in Hrm.
    unfold removeFiles in Hrm. cbv zeta in Hrm. injection Hrm as <-.
    unfold present, tracked.
    rewrite worktree_with_repo. cbn [repo index with_repo after].
    split; intros [y Hy]; apply map_lookup_filter_Some in Hy as [Hy Hp];
      cbn [fst] in Hp.
    + rewrite bool_decide_eq_true_2 in Hp by eauto. exact Hp.
    + exact Hp.
  - intros folder files w w' f Hdest Hf. change (dest folder files w = inr w') in Hdest.
    unfold dest in Hdest.
    destruct folder as [d|]; [|discriminate]. injection Hdest as <-.
    unfold present, tracked, worktree, after, root. cbn.
    split; [|auto].
    destruct (decide (d = default (tmpdir w) (path w))) as [->|Hne].
    + rewrite lookup_insert_eq. cbn. now rewrite write_other.
    + now rewrite lookup_insert_ne.
  - intros w w' f Hadd. change (addFiles "." w = inr w') in Hadd.
    unfold addFiles in Hadd. cbv zeta in Hadd. injection Hadd as <-.
    unfold present, tracked.
    rewrite worktree_with_repo. cbn [repo index with_repo after].
    split; [auto|]. intros Hsome.
    apply lookup_union_is_Some in Hsome as [[y Hy]|[y Hy]];
      apply map_lookup_filter_Some in Hy as [Hy _]; eauto.
  - intros message w w' f Hc. change (commit message w = inr w') in Hc.
    unfold commit in Hc. cbv zeta in Hc.
    destruct (bool_decide _); [discriminate|]. injection Hc as <-. auto.
  - intros name w w' f Hp. change (push name w = inr w') in Hp.
    unfold push in Hp. cbv zeta in Hp.
    destruct (_ && _); [|discriminate]. injection Hp as <-. auto.
Qed.

End ModelFacts.

(** ** The claims on the model *)

Module OnModel.

Import Scenario.

Lemma nonempty_by_size (m : gmap string string) : size m <> 0%nat -> m <> ∅.
Proof. intros Hs ->. now apply Hs. Qed.

(** Redeploying [a.html] from the cache: the branch is a local one. *)
Lemma branch_resolution_order_witness :
  let w1 := world (resolved (step_prepare cached None (mkRun deployed []))) in
  [a_html] <> []
  /\ git.prepareRepo (remoteUrl cached None) (cacheDir cached None) deployed = inr w1
  /\ In "gh-pages" (git._localBranches w1)
  /\ exists rest,
       calls (trace (task cached None [a_html] (mkRun deployed [])).1)
       = opened cached None :: CheckoutBranch "gh-pages" :: rest.
Proof.
  intros w1.
  assert (H1 : [a_html] <> []) by discriminate.
  assert (H2 : git.prepareRepo (remoteUrl cached None) (cacheDir cached None) deployed
               = inr w1) by (vm_compute; reflexivity).
  assert (H3 : In "gh-pages" (git._localBranches w1)) by (vm_compute; auto).
  destruct (branch_resolution_order cached None [a_html] deployed w1 H1 H2)
    as (rest & Hlocal & _ & _).
  split; [exact H1|]. split; [exact H2|]. split; [exact H3|].
  exists rest. exact (Hlocal H3).
Defined.

(** C3, as claimed, fails on a run without artifacts: a cache directory
    is given and [pull] is not called. *)
Lemma pull_not_called_without_artifacts :
  let tr := trace (task cached None [] (mkRun deployed [])).1 in
  ~ (In Pull tr <-> cacheDir cached None = Some "cache").
Proof. intros tr [_ Hpull]. exact (Hpull eq_refl). Qed.

Lemma pull_iff_cacheDir_witness :
  let r1 := resolved (branch_ready cached None (mkRun deployed [])) in
  let tr := calls (trace (task cached None [a_html] (mkRun deployed [])).1) in
  [a_html] <> []
  /\ branch_ready cached None (mkRun deployed []) = Resolved r1
  /\ (In Pull tr <->
      exists dir, cacheDir cached None = Some dir /\ dir <> EmptyString)
  /\ (~ In Pull tr ->
      exists rest, tr = calls (trace r1) ++ RemoveFiles "." true :: rest).
Proof.
  intros r1 tr.
  assert (H1 : [a_html] <> []) by discriminate.
  assert (H2 : branch_ready cached None (mkRun deployed []) = Resolved r1)
    by (vm_compute; reflexivity).
  split; [exact H1|]. split; [exact H2|].
  exact (pull_iff_cacheDir cached None [a_html] deployed r1 H1 H2).
Defined.

(** Redeploying [a.html]: nothing is staged. *)
Lemma nothing_staged_no_commit_witness :
  let r5 := resolved (staged cached None [a_html] (mkRun deployed [])) in
  let out := task cached None [a_html] (mkRun deployed []) in
  [a_html] <> []
  /\ staged cached None [a_html] (mkRun deployed []) = Resolved r5
  /\ git._staged (world r5) = ∅
  /\ out.2 = Success
  /\ count is_commit (trace out.1) = 0%nat
  /\ count is_push (trace out.1) = 0%nat
  /\ out.1 = log (TAG cached None +:+ "No files have changed.") r5.
Proof.
  intros r5 out.
  assert (H1 : [a_html] <> []) by discriminate.
  assert (H2 : staged cached None [a_html] (mkRun deployed []) = Resolved r5)
    by (vm_compute; reflexivity).
  assert (H3 : git._staged (world r5) = ∅) by (vm_compute; reflexivity).
  split; [exact H1|]. split; [exact H2|]. split; [exact H3|].
  exact (nothing_staged_no_commit cached None [a_html] deployed r5 H1 H2 H3).
Defined.

(** C5, as claimed, fails when the clock has not moved since the run
    started: the timestamp of the commit is the start time, not a later
    one. *)
Lemma commit_timestamp_not_after_start :
  let tr := trace (task cached None [index_html] (mkRun frozen [])).1 in
  In (Commit ("Update " +:+ "2014-05-13T16:53:20.000Z")) tr
  /\ Date.parse "2014-05-13T16:53:20.000Z" = Some 1400000000000
  /\ host.now frozen = 1400000000000
  /\ ~ (host.now frozen < 1400000000000).
Proof.
  intros tr. split; [vm_compute; tauto|]. split; [reflexivity|].
  split; [reflexivity|]. vm_compute. discriminate.
Qed.

Lemma one_commit_with_timestamp_witness :
  let r5 := resolved (staged cached None [index_html] (mkRun clean [])) in
  let t := host.now (world r5) in
  let tr := trace (task cached None [index_html] (mkRun clean [])).1 in
  [index_html] <> []
  /\ staged cached None [index_html] (mkRun clean []) = Resolved r5
  /\ git._staged (world r5) <> ∅
  /\ count is_commit tr = 1%nat
  /\ In (Commit ("Update " +:+ Date.toISOString t)) tr
  /\ Date.year0000 <= t < Date.year10000
  /\ Date.parse (Date.toISOString t) = Some t.
Proof.
  intros r5 t tr.
  assert (H1 : [index_html] <> []) by discriminate.
  assert (H2 : staged cached None [index_html] (mkRun clean []) = Resolved r5)
    by (vm_compute; reflexivity).
  assert (H3 : git._staged (world r5) <> ∅)
    by (apply nonempty_by_size; vm_compute; discriminate).
  assert (Ht : t = 1400000000030) by (vm_compute; reflexivity).
  assert (H4 : Date.year0000 <= t < Date.year10000)
    by (rewrite Ht; unfold Date.year0000, Date.year10000; lia).
  destruct (one_commit_with_timestamp cached None [index_html] clean r5 H1 H2 H3)
    as (Hone & Hmsg & Hvalid).
  split; [exact H1|]. split; [exact H2|]. split; [exact H3|].
  split; [exact Hone|]. split; [exact Hmsg|]. split; [exact H4|].
  exact (Hvalid H4).
Defined.

(** Deploying [b.html] over [a.html] with [push: false]. *)
Lemma push_gated_witness :
  let r5 := resolved (staged local_only None [b_html] (mkRun deployed [])) in
  let tr := calls (trace (task local_only None [b_html] (mkRun deployed [])).1) in
  [b_html] <> []
  /\ staged local_only None [b_html] (mkRun deployed []) = Resolved r5
  /\ git._staged (world r5) <> ∅
  /\ push local_only None = false
  /\ count is_commit tr = 1%nat /\ count is_push tr = 0%nat.
Proof.
  intros r5 tr.
  assert (H1 : [b_html] <> []) by discriminate.
  assert (H2 : staged local_only None [b_html] (mkRun deployed []) = Resolved r5)
    by (vm_compute; reflexivity).
  assert (H3 : git._staged (world r5) <> ∅)
    by (apply nonempty_by_size; vm_compute; discriminate).
  assert (H4 : push local_only None = false) by reflexivity.
  split; [exact H1|]. split; [exact H2|]. split; [exact H3|]. split; [exact H4|].
  destruct (push_gated local_only None [b_html] deployed r5 H1 H2 H3)
    as (_ & _ & Hoff & _).
  exact (Hoff H4).
Defined.

Lemma stream_content_rejected_witness :
  isStream video = true
  /\ collectFileName video start
     = mkCollector [] []
         [PluginError "gulp-gh-pages" "Stream content is not supported"]
  /\ ~ In video (filePaths (collect [a_html; video]))
  /\ forall folder fs,
       In (Dest folder fs) (trace (plugin cached None [a_html; video] clean).2.1) ->
       ~ In video fs.
Proof.
  assert (H1 : isStream video = true) by reflexivity.
  split; [exact H1|].
  exact (stream_content_rejected cached None video start [a_html; video] clean H1).
Defined.

(** C8. On an ephemeral clone the copy is sent to [gulp.dest(undefined)]:
    the working copy is in the temporary directory, nothing is written
    into it, and the run fails in the copy. *)
Theorem ephemeral_copy_misses_working_copy :
  let out := task ephemeral None [index_html] (mkRun clean []) in
  cacheDir ephemeral None = None
  /\ In (Dest None [index_html]) (trace out.1)
  /\ Model.path (world out.1) = Some (Model.tmpdir clean)
  /\ Model.worktree (world out.1) !! "index.html" = None
  /\ count is_commit (trace out.1) = 0%nat
  /\ out.2 = Failure "Invalid output folder".
Proof. vm_compute. tauto. Qed.

(** Deploying [b.html] over [a.html]: [a.html] goes away. *)
Lemma removal_before_copy_witness :
  let r2 := resolved (synced cached None (mkRun deployed [])) in
  let r3 := resolved (cleared cached None (mkRun deployed [])) in
  let out := task cached None [b_html] (mkRun deployed []) in
  [b_html] <> []
  /\ synced cached None (mkRun deployed []) = Resolved r2
  /\ cleared cached None (mkRun deployed []) = Resolved r3
  /\ Model.tracked (world r2) "a.html"
  /\ ~ In "a.html" (map relative [b_html])
  /\ (forall l1 e l2,
        trace out.1 = l1 ++ e :: l2 -> is_write e = true ->
        In (RemoveFiles "." true) l1)
  /\ ~ Model.present (world out.1) "a.html"
  /\ ~ Model.tracked (world out.1) "a.html".
Proof.
  intros r2 r3 out.
  assert (H1 : [b_html] <> []) by discriminate.
  assert (H2 : synced cached None (mkRun deployed []) = Resolved r2)
    by (vm_compute; reflexivity).
  assert (H3 : cleared cached None (mkRun deployed []) = Resolved r3)
    by (vm_compute; reflexivity).
  assert (H4 : Model.tracked (world r2) "a.html") by (vm_compute; eauto).
  assert (H5 : ~ In "a.html" (map relative [b_html]))
    by (cbn; intros [H|[]]; discriminate).
  destruct (removal_before_copy cached None [b_html] deployed H1) as [Hord Hgone].
  split; [exact H1|]. split; [exact H2|]. split; [exact H3|].
  split; [exact H4|]. split; [exact H5|]. split; [exact Hord|].
  exact (Hgone Model.present Model.tracked ModelFacts.file_contract r2 r3 H2 H3
           "a.html" H4 H5).
Defined.

Lemma null_files_pass_through_witness :
  isNull dist = true
  /\ forallb isNull [dist; dist] = true
  /\ collectFileName dist start = mkCollector [] [dist] []
  /\ plugin cached None [dist; dist] deployed
     = (mkCollector [] [dist; dist] [], (mkRun deployed [], Success)).
Proof.
  assert (H1 : isNull dist = true) by reflexivity.
  assert (H2 : forallb isNull [dist; dist] = true) by reflexivity.
  destruct (null_files_pass_through cached None dist start [dist; dist] deployed H1)
    as [Hone Hall].
  split; [exact H1|]. split; [exact H2|]. split; [exact Hone|]. exact (Hall H2).
Defined.

End OnModel.

(** * Further properties *)

(** ** The options *)

Lemma or_not_empty (v : option string) (d : string) :
  d <> EmptyString -> JS.or v d <> EmptyString.
Proof.
  intros Hd. destruct v as [s|]; cbn; [|assumption].
  destruct (String.eqb_spec s EmptyString); assumption.
Qed.

Lemma or_given (s d : string) : s <> EmptyString -> JS.or (Some s) d = s.
Proof. intros Hs. cbn. now destruct (String.eqb_spec s EmptyString). Qed.

Section Names.

Context {World : Type} `{!git.Lib World} `{!host.Lib World}.
Variable options : Arg.
Variable remote : option string.

Local Notation "p >>= k" := (then_ p k) (at level 50, left associativity).

(** The step an event of a run comes from. *)
Ltac origin_of F :=
  unfold of_task, of_synced, of_after_sync, of_after_clear, of_prepare, of_branch,
    of_pull, of_remove, of_copy, of_add, of_commit, opened, branch_call in F;
  cbn in F;
  repeat match goal with H : _ \/ _ |- _ => destruct H end;
  try discriminate.


Lemma branch_event (files : list File) (w : World) (name : string) :
  let tr := trace (task options remote files (mkRun w [])).1 in
  In (CheckoutBranch name) tr \/ In (CreateAndCheckoutBranch name) tr ->
  name = branch options remote.
Proof.
  intros tr [Hin|Hin]; pose proof (task_events options remote files w) as F;
    rewrite List.Forall_forall in F; specialize (F _ Hin); origin_of F; congruence.
Qed.

Lemma push_event (files : list File) (w : World) (name : string) :
  In (Push name) (trace (task options remote files (mkRun w [])).1) ->
  name = origin options remote.
Proof.
  intros Hin. pose proof (task_events options remote files w) as F.
  rewrite List.Forall_forall in F. specialize (F _ Hin). origin_of F. congruence.
Qed.

(** X1. The branch that a run checks out or creates and the remote it
    pushes to are never the empty string: they are the options [branch]
    and [origin] when these are non-empty strings, and [gh-pages] and
    [origin] otherwise. *)
Theorem names_never_empty (files : list File) (w : World) (name : string) :
  let tr := trace (task options remote files (mkRun w [])).1 in
  let o := opts options remote in
  (In (CheckoutBranch name) tr \/ In (CreateAndCheckoutBranch name) tr ->
   name <> EmptyString
   /\ (forall b, Options.branch o = Some b -> b <> EmptyString -> name = b)
   /\ (Options.branch o = None \/ Options.branch o = Some EmptyString ->
       name = "gh-pages"))
  /\ (In (Push name) tr ->
      name <> EmptyString
      /\ (forall r, Options.origin o = Some r -> r <> EmptyString -> name = r)
      /\ (Options.origin o = None \/ Options.origin o = Some EmptyString ->
          name = "origin")).
Proof.
  intros tr o. split.
  - intros Hin. rewrite (branch_event files w name Hin). unfold branch. fold o.
    split; [|split].
    + now apply or_not_empty.
    + intros b -> Hne. now apply or_given.
    + now intros [-> | ->].
  - intros Hin. rewrite (push_event files w name Hin). unfold origin. fold o.
    split; [|split].
    + now apply or_not_empty.
    + intros r -> Hne. now apply or_given.
    + now intros [-> | ->].
Qed.

End Names.

Section Shorthand.

Context {World : Type} `{!git.Lib World} `{!host.Lib World}.
Variable options : Arg.
Variable remote : option string.

Local Notation "p >>= k" := (then_ p k) (at level 50, left associativity).



End Shorthand.


(** ** The log *)

Section Log.

Context {World : Type} `{!git.Lib World} `{!host.Lib World}.
Variable options : Arg.
Variable remote : option string.

Local Notation "p >>= k" := (then_ p k) (at level 50, left associativity).

Ltac tagging :=
  intros r; unfold_steps; cbn [world trace]; run_goal; cbn [settled trace];
  rewrite <- ?app_assoc;
  first [ eexists; split; [reflexivity|]
        | exists []; split; [now rewrite app_nil_r|] ];
  repeat match goal with |- Forall _ _ => constructor end;
  intros msg E; try discriminate E; injection E as <-; eexists; reflexivity.

Lemma tagging_prepare : emitting (tagged options remote) (step_prepare options remote).
Proof. tagging. Qed.

Lemma tagging_branch : emitting (tagged options remote) (step_branch options remote).
Proof. tagging. Qed.

Lemma tagging_pull : emitting (tagged options remote) (step_pull options remote).
Proof. tagging. Qed.

Lemma tagging_remove : emitting (tagged options remote) step_remove.
Proof. tagging. Qed.

Lemma tagging_copy (files : list File) :
  emitting (tagged options remote) (step_copy options remote files).
Proof. tagging. Qed.

Lemma tagging_add : emitting (tagged options remote) step_add.
Proof. tagging. Qed.

Lemma tagging_commit : emitting (tagged options remote) (step_commit options remote).
Proof. tagging. Qed.

(** X3. Every line a run logs starts with the tag of the plugin, which
    names the branch of the options (or [gh-pages]): the same branch the
    run checks out or creates. *)
Theorem log_lines_tagged (files : list File) (w : World) (msg : string) :
  let tr := trace (task options remote files (mkRun w [])).1 in
  In (Log msg) tr ->
  (exists text, msg = "[gulp-" +:+ branch options remote +:+ "]: " +:+ text)
  /\ (forall name,
        In (CheckoutBranch name) tr \/ In (CreateAndCheckoutBranch name) tr ->
        exists text, msg = "[gulp-" +:+ name +:+ "]: " +:+ text).
Proof.
  intros tr Hin.
  assert (Htag : exists text, msg = TAG options remote +:+ text).
  { subst tr. destruct files as [|file files]; [destruct Hin|].
    unfold task in Hin. cbn [length Nat.eqb] in Hin. rewrite done_settled in Hin.
    assert (Hk : emitting (tagged options remote)
                   (fun r => step_prepare options remote r
                             >>= step_branch options remote
                             >>= step_pull options remote
                             >>= step_remove
                             >>= step_copy options remote (file :: files)
                             >>= step_add
                             >>= step_commit options remote)).
    { repeat (apply emitting_then with (k2 := _));
        auto using tagging_prepare, tagging_branch, tagging_pull, tagging_remove,
          tagging_copy, tagging_add, tagging_commit. }
    destruct (Hk (mkRun w [])) as (evs & E & F). cbn [trace app] in E.
    rewrite E in Hin. rewrite List.Forall_forall in F.
    exact (F _ Hin msg eq_refl). }
  destruct Htag as [text ->]. unfold TAG. split.
  - exists text. now rewrite <- !DateFacts.append_assoc.
  - intros name Hname. apply branch_event in Hname as ->.
    exists text. now rewrite <- !DateFacts.append_assoc.
Qed.

End Log.

(** ** The transform, as a whole *)

Section Whole.

Context {World : Type} `{!git.Lib World} `{!host.Lib World}.
Variable options : Arg.
Variable remote : option string.

Lemma collect_errors_all (input : list File) :
  errors (collect input)
  = repeat (PluginError "gulp-gh-pages" "Stream content is not supported")
      (length (List.filter isStream input)).
Proof.
  induction input as [|file input IH] using rev_ind; [reflexivity|].
  rewrite collect_snoc, List.filter_app, length_app, repeat_app.
  destruct file as [rel [|data|]]; cbn; rewrite IH; auto using app_nil_r.
Qed.

Lemma kinds_partition (input : list File) :
  (length (List.filter isBuffer input) + length (List.filter isNull input)
   + length (List.filter isStream input))%nat = length input.
Proof.
  induction input as [|[rel [|data|]] input IH]; cbn; lia.
Qed.

(** X4. The transform sorts every file it is fed into exactly one of three
    places and keeps the order: the files with buffer contents are
    collected, the files with null contents are pushed on, and each file
    with stream contents gives one error; nothing is lost and nothing is
    counted twice. *)
Theorem collector_partition (input : list File) :
  filePaths (collect input) = List.filter isBuffer input
  /\ pushed (collect input) = List.filter isNull input
  /\ errors (collect input)
     = repeat (PluginError "gulp-gh-pages" "Stream content is not supported")
         (length (List.filter isStream input))
  /\ (length (filePaths (collect input)) + length (pushed (collect input))
      + length (errors (collect input)))%nat = length input.
Proof.
  split; [apply collect_filePaths|]. split; [apply collect_pushed|].
  split; [apply collect_errors_all|].
  rewrite collect_filePaths, collect_pushed, collect_errors.
  apply kinds_partition.
Qed.

Lemma filter_twice {A} (p : A -> bool) (l : list A) :
  List.filter p (List.filter p l) = List.filter p l.
Proof.
  induction l as [|x l IH]; [reflexivity|]. cbn.
  destruct (p x) eqn:Hp; cbn; rewrite ?Hp, IH; reflexivity.
Qed.

(** X5. What is deployed depends on the files with buffer contents only,
    in their order: files with null or stream contents anywhere in the
    input change nothing of what the task does, and files fed in two
    batches are collected as the one batch after the other. *)
Theorem deploy_buffers_only (input more : list File) (w : World) :
  (plugin options remote input w).2
  = (plugin options remote (List.filter isBuffer input) w).2
  /\ (plugin options remote input w).2
     = task options remote (List.filter isBuffer input) (mkRun w [])
  /\ filePaths (collect (input ++ more))
     = filePaths (collect input) ++ filePaths (collect more).
Proof.
  unfold plugin. cbn [snd].
  rewrite !collect_filePaths, filter_twice, List.filter_app. auto.
Qed.

End Whole.

(** ** How a run ends *)

Section Ending.

Context {World : Type} `{!git.Lib World} `{!host.Lib World}.
Variable options : Arg.
Variable remote : option string.

Local Notation "p >>= k" := (then_ p k) (at level 50, left associativity).

Lemma rejected_call (e : Event) (r : Run World) :
  rejected_by_last (call e (perform e) r).
Proof.
  unfold call. destruct (perform e (world r)) as [err|w'] eqn:E; cbn; [|exact I].
  exists (trace r), e. auto.
Qed.

Lemma rejected_then (p : Promise World) (k : Run World -> Promise World) :
  rejected_by_last p -> (forall r, rejected_by_last (k r)) -> rejected_by_last (p >>= k).
Proof. intros Hp Hk. destruct p as [r|err r]; cbn; [apply Hk | exact Hp]. Qed.

Lemma rejected_prepare (r : Run World) : rejected_by_last (step_prepare options remote r).
Proof. apply (rejected_call (PrepareRepo _ _)). Qed.

Lemma rejected_branch (r : Run World) : rejected_by_last (step_branch options remote r).
Proof.
  unfold step_branch. cbv zeta.
  destruct (JS.includes _ _); [|destruct (JS.includes _ _)].
  - apply (rejected_call (CheckoutBranch _)).
  - apply (rejected_call (CheckoutBranch _)).
  - apply (rejected_call (CreateAndCheckoutBranch _)).
Qed.

Lemma rejected_pull (r : Run World) : rejected_by_last (step_pull options remote r).
Proof.
  unfold step_pull. destruct (JS.truthy _); [|exact I]. apply (rejected_call Pull).
Qed.

Lemma rejected_remove (r : Run World) : rejected_by_last (step_remove r).
Proof. apply (rejected_call (RemoveFiles _ _)). Qed.

Lemma rejected_copy (files : list File) (r : Run World) :
  rejected_by_last (step_copy options remote files r).
Proof. apply (rejected_call (Dest _ _)). Qed.

Lemma rejected_add (r : Run World) : rejected_by_last (step_add r).
Proof. apply (rejected_call (AddFiles _)). Qed.

Lemma rejected_push (r : Run World) : rejected_by_last (step_push options remote r).
Proof.
  unfold step_push. destruct (push options remote); [|exact I].
  apply (rejected_call (Push _)).
Qed.

Lemma rejected_commit (r : Run World) : rejected_by_last (step_commit options remote r).
Proof.
  unfold step_commit. cbv zeta. destruct (Nat.eqb _ 0); [exact I|].
  apply rejected_then; [apply (rejected_call (Commit _)) | apply rejected_push].
Qed.

(** X6. A run fails with the error of the first call that is rejected, and
    stops there: the call recorded last is the rejected one, it was made
    on the world the run ends in, and what it answered is the error the
    run reports. *)
Theorem failure_is_last_call (files : list File) (w : World) (err : Error) :
  let out := task options remote files (mkRun w []) in
  out.2 = Failure err ->
  exists before e,
    trace out.1 = before ++ [e]
    /\ is_log e = false
    /\ perform e (world out.1) = inl err.
Proof.
  intros out Hfail. subst out.
  destruct files as [|file files]; [discriminate|].
  unfold task in *. cbn [length Nat.eqb] in *.
  match type of Hfail with (done ?p).2 = _ => set (chain := p) in * end.
  assert (Hchain : rejected_by_last chain).
  { subst chain.
    repeat (apply rejected_then; [|auto using rejected_branch, rejected_pull,
              rejected_remove, rejected_copy, rejected_add, rejected_commit]).
    apply rejected_prepare. }
  destruct chain as [r|err' r]; cbn in Hfail; [discriminate|].
  injection Hfail as ->. destruct Hchain as (before & e & Etr & Eperf).
  exists before, e. cbn [fst done]. split; [assumption|]. split; [|assumption].
  destruct e; try reflexivity. discriminate.
Qed.

(** The steps up to staging record neither a commit nor a push. *)
Lemma staged_events (files : list File) (w : World) :
  Forall (fun e => is_commit e = false /\ is_push e = false)
    (trace (settled (staged options remote files (mkRun w [])))).
Proof.
  assert (Hk : emitting (fun e => of_synced options remote e
                                  \/ of_remove e \/ of_copy options remote files e \/ of_add e)
                 (staged options remote files)).
  { unfold staged, cleared.
    apply emitting_then with (k2 := _);
      [apply emitting_then with (k2 := _);
         [apply emitting_then with (k2 := _)|]|].
    - eapply emitting_weaken, emitting_synced. auto.
    - eapply emitting_weaken, emitting_remove. auto.
    - eapply emitting_weaken, emitting_copy. auto.
    - eapply emitting_weaken, emitting_add. auto. }
  destruct (Hk (mkRun w [])) as (evs & -> & F). cbn [trace app].
  eapply Forall_impl; [exact F|]. intros e.
  unfold of_synced, of_prepare, of_branch, of_pull, of_remove, of_copy, of_add,
    opened, branch_call.
  destruct e; cbn; intuition discriminate.
Qed.

(** X7. [commit] is only ever called with something staged: whenever a run
    records a commit, its files were staged, the staged change set was not
    empty, and the message is [Update ] followed by the timestamp of the
    clock after staging. *)
Theorem commit_only_when_staged (files : list File) (w : World) (message : string) :
  In (Commit message) (trace (task options remote files (mkRun w [])).1) ->
  exists r5,
    staged options remote files (mkRun w []) = Resolved r5
    /\ git._staged (world r5) <> ∅
    /\ message = "Update " +:+ Date.toISOString (host.now (world r5)).
Proof.
  intros Hin. destruct files as [|file files]; [destruct Hin|].
  rewrite task_nonempty, done_settled in Hin by discriminate.
  pose proof (staged_events (file :: files) w) as F.
  rewrite List.Forall_forall in F.
  destruct (staged options remote (file :: files) (mkRun w [])) as [r5|err r5];
    cbn [then_ settled] in *.
  - exists r5. split; [reflexivity|].
    unfold step_commit in Hin. cbv zeta in Hin.
    destruct (Nat.eqb (size (git._staged (world r5))) 0) eqn:Hs.
    + exfalso. cbn [settled log emit trace] in Hin.
      apply in_app_or in Hin as [Hin|[Hin|[]]]; [|discriminate].
      now destruct (F _ Hin).
    + split; [intros E; rewrite E, map_size_empty in Hs; discriminate|].
      unfold step_push, call, log, emit, then_ in Hin. cbn [world trace] in Hin.
      repeat (split_hyp Hin; cbn [world trace settled] in Hin);
        repeat (apply in_app_or in Hin as [Hin|Hin]);
        try (now destruct (F _ Hin));
        cbn [In] in Hin; intuition (try discriminate); congruence.
  - exfalso. now destruct (F _ Hin).
Qed.

(** X8. The calls of a run that succeeds, in full: open, check out or
    create the branch, pull if there is a cache directory, remove, copy,
    add; then nothing more when nothing is staged, and otherwise the
    commit, followed by the push unless the option says no. *)
Theorem success_calls (files : list File) (w : World) :
  files <> [] ->
  (task options remote files (mkRun w [])).2 = Success ->
  let tr := calls (trace (task options remote files (mkRun w [])).1) in
  exists e r5,
    branch_call options remote e
    /\ staged options remote files (mkRun w []) = Resolved r5
    /\ let base :=
         [opened options remote; e] ++ pulled options remote
         ++ [RemoveFiles "." true; Dest (cacheDir options remote) files;
             AddFiles "."] in
       (git._staged (world r5) = ∅ -> tr = base)
       /\ (git._staged (world r5) <> ∅ ->
           tr = base ++ Commit (message_at (world r5))
                        :: (if push options remote
                            then [Push (origin options remote)] else [])).
Proof.
  intros Hne Hok tr. subst tr. rewrite task_nonempty in * by assumption.
  destruct (staged options remote files (mkRun w [])) as [r5|err r5] eqn:Hr;
    [|discriminate].
  destruct (staged_calls _ _ _ _ _ Hr) as (e & He & E5). cbn [trace calls List.filter app] in E5.
  exists e, r5. split; [assumption|]. split; [reflexivity|]. cbv zeta.
  cbn [then_] in *. rewrite done_settled. split.
  - intros Hs. unfold step_commit. rewrite Hs, map_size_empty. cbn [Nat.eqb settled].
    unfold log, emit. cbn [trace]. now rewrite calls_app, E5, app_nil_r.
  - intros Hs. pose proof (commit_step_calls options remote r5 Hs) as Hcalls.
    cbn zeta in Hcalls.
    assert (Hsize : Nat.eqb (size (git._staged (world r5))) 0 = false).
    { apply Nat.eqb_neq. intros E. apply Hs. now apply map_size_empty_iff. }
    unfold step_commit in Hok. cbv zeta in Hok. rewrite Hsize in Hok.
    unfold step_push, call in Hok. cbn [world log emit] in Hok.
    fold (message_at (world r5)) in Hok.
    destruct (git.commit (message_at (world r5)) (world r5));
      [cbn [then_ done snd] in Hok; discriminate|].
    rewrite E5 in Hcalls.
    destruct (push options remote); rewrite Hcalls; reflexivity.
Qed.

End Ending.

(** ** The order of the calls *)

Section Order.

Context {World : Type} `{!git.Lib World} `{!host.Lib World}.
Variable options : Arg.
Variable remote : option string.

Local Notation "p >>= k" := (then_ p k) (at level 50, left associativity).

Lemma plan_staged (files : list File) (e : Event) (message : string) :
  plan options remote files e message
  = ([opened options remote; e] ++ pulled options remote
     ++ [RemoveFiles "." true; Dest (cacheDir options remote) files; AddFiles "."])
    ++ [Commit message; Push (origin options remote)].
Proof. unfold plan. now rewrite <- !app_assoc. Qed.

(** A run that is rejected before its files are staged has called a
    beginning of the plan. *)
Lemma staged_rejected_calls (files : list File) (w : World) (err : Error) (r : Run World) :
  staged options remote files (mkRun w []) = Rejected err r ->
  exists e, branch_call options remote e
    /\ forall message,
         calls (trace r) `prefix_of` plan options remote files e message.
Proof.
  intros Hr. unfold_steps. cbn [world trace] in Hr. run_hyp Hr.
  all: injection Hr as _ <-; cbn [trace]; rewrite <- ?app_assoc.
  all: unfold branch_call, plan, pulled, opened.
  all: try rewrite Heqb; try rewrite Heqb0; try rewrite Heqb1; try rewrite Heqb2.
  all: first
    [ exists (CheckoutBranch (branch options remote));
      split; [now left|]; intros message; eexists; cbn; reflexivity
    | exists (CreateAndCheckoutBranch (branch options remote));
      split; [now right|]; intros message; eexists; cbn; reflexivity ].
Qed.

(** X9. The calls of every run, failed or not, are a beginning of the
    eight steps of the task in their order: open, check out or create the
    branch, pull (with a cache directory only), remove, copy, add, commit,
    push. No call is made twice and none out of turn. *)
Theorem calls_follow_plan (files : list File) (w : World) :
  exists e message,
    branch_call options remote e
    /\ calls (trace (task options remote files (mkRun w [])).1)
       `prefix_of` plan options remote files e message.
Proof.
  destruct files as [|file files].
  { exists (CheckoutBranch (branch options remote)), EmptyString.
    split; [now left|]. apply prefix_nil. }
  rewrite task_nonempty, done_settled by discriminate.
  destruct (staged options remote (file :: files) (mkRun w [])) as [r5|err r] eqn:Hr;
    cbn [then_ settled].
  - destruct (staged_calls _ _ _ _ _ Hr) as (e & He & E5).
    cbn [trace calls List.filter app] in E5.
    exists e, (message_at (world r5)). split; [assumption|].
    rewrite plan_staged.
    destruct (Nat.eqb (size (git._staged (world r5))) 0) eqn:Hs.
    + unfold step_commit. rewrite Hs. cbn [settled log emit trace].
      rewrite calls_app, E5. cbn [calls List.filter is_log negb].
      rewrite app_nil_r. now apply prefix_app_r.
    + assert (Hne : git._staged (world r5) <> ∅)
        by (intros E; rewrite E, map_size_empty in Hs; discriminate).
      pose proof (commit_step_calls options remote r5 Hne) as Hcalls.
      cbn zeta in Hcalls. rewrite E5 in Hcalls.
      destruct (git.commit _ _); [|destruct (push options remote)];
        rewrite Hcalls; apply prefix_app; eexists; cbn; reflexivity.
  - destruct (staged_rejected_calls _ _ _ _ Hr) as (e & He & Hpre).
    exists e, EmptyString. auto.
Qed.

End Order.

(** ** The message of a commit *)

(** X10. Commits made at different milliseconds have different messages:
    from the message the time of the commit can be read back, for the
    years of four digits. *)
Theorem commit_message_tells_time {World : Type} `{!host.Lib World} (w1 w2 : World) :
  Date.year0000 <= host.now w1 < Date.year10000 ->
  Date.year0000 <= host.now w2 < Date.year10000 ->
  message_at w1 = message_at w2 ->
  host.now w1 = host.now w2.
Proof.
  intros H1 H2 E. unfold message_at in E.
  apply (inj (String.append "Update ")) in E.
  apply (f_equal Date.parse) in E.
  rewrite !DateFacts.parse_toISOString in E by assumption. congruence.
Qed.

(** ** The first call *)

Section First.

Context {World : Type} `{!git.Lib World} `{!host.Lib World}.
Variable options : Arg.
Variable remote : option string.

Local Notation "p >>= k" := (then_ p k) (at level 50, left associativity).

(** X11. A run with artifacts calls [prepareRepo] first, whatever happens
    next, and hands it [remoteUrl] and [cacheDir] as the options have
    them: a missing url or an empty directory is passed on as it is. *)
Theorem opens_first (files : list File) (w : World) :
  files <> [] ->
  exists rest,
    trace (task options remote files (mkRun w [])).1
    = PrepareRepo (Options.remoteUrl (opts options remote))
        (Options.cacheDir (opts options remote)) :: rest.
Proof.
  intros Hne. rewrite task_from_branch, done_settled by assumption.
  assert (Hk : emitting (fun _ => True)
                 (fun r => step_branch options remote r
                           >>= after_branch options remote files)).
  { apply emitting_then.
    - eapply emitting_weaken, emitting_branch. auto.
    - eapply emitting_weaken, emitting_after_branch. auto. }
  replace (branch_ready options remote (mkRun w []) >>= after_branch options remote files)
    with (step_prepare options remote (mkRun w [])
          >>= (fun r => step_branch options remote r
                        >>= after_branch options remote files))
    by (unfold branch_ready; now destruct (step_prepare options remote (mkRun w []))).
  destruct (then_settled _ (step_prepare options remote (mkRun w [])) _ Hk)
    as (evs & -> & _).
  exists evs. unfold step_prepare, call, emit. cbn [world trace].
  now destruct (git.prepareRepo _ _ _).
Qed.

End First.

(** ** The further properties on the model *)

Module FurtherOnModel.

Import Scenario.

(** The first deployment creates [gh-pages]. *)
Lemma names_never_empty_witness :
  let tr := trace (task cached None [index_html] (mkRun clean [])).1 in
  (In (CheckoutBranch "gh-pages") tr \/ In (CreateAndCheckoutBranch "gh-pages") tr)
  /\ In (Push "origin") tr
  /\ "gh-pages" <> EmptyString
  /\ "origin" <> EmptyString.
Proof.
  intros tr.
  assert (H1 : In (CheckoutBranch "gh-pages") tr
               \/ In (CreateAndCheckoutBranch "gh-pages") tr)
    by (right; vm_compute; tauto).
  assert (H2 : In (Push "origin") tr) by (vm_compute; tauto).
  destruct (names_never_empty cached None [index_html] clean "gh-pages") as [Hb _].
  destruct (names_never_empty cached None [index_html] clean "origin") as [_ Ho].
  split; [exact H1|]. split; [exact H2|].
  split; [exact (proj1 (Hb H1)) | exact (proj1 (Ho H2))].
Defined.


Lemma log_lines_tagged_witness :
  let tr := trace (task cached None [index_html] (mkRun clean [])).1 in
  In (Log "[gulp-gh-pages]: Cloning repo") tr
  /\ exists text,
       "[gulp-gh-pages]: Cloning repo"
       = "[gulp-" +:+ branch cached None +:+ "]: " +:+ text.
Proof.
  intros tr.
  assert (H1 : In (Log "[gulp-gh-pages]: Cloning repo") tr) by (vm_compute; tauto).
  split; [exact H1|].
  exact (proj1 (log_lines_tagged cached None [index_html] clean _ H1)).
Defined.

(** The run on an ephemeral clone fails in the copy. *)
Lemma failure_is_last_call_witness :
  let out := task ephemeral None [index_html] (mkRun clean []) in
  out.2 = Failure "Invalid output folder"
  /\ exists before e,
       trace out.1 = before ++ [e]
       /\ is_log e = false
       /\ perform e (world out.1) = inl "Invalid output folder".
Proof.
  intros out.
  assert (H1 : out.2 = Failure "Invalid output folder") by (vm_compute; reflexivity).
  split; [exact H1|].
  exact (failure_is_last_call ephemeral None [index_html] clean _ H1).
Defined.

Lemma commit_only_when_staged_witness :
  let tr := trace (task cached None [index_html] (mkRun clean [])).1 in
  In (Commit "Update 2014-05-13T16:53:20.030Z") tr
  /\ exists r5,
       staged cached None [index_html] (mkRun clean []) = Resolved r5
       /\ git._staged (world r5) <> ∅
       /\ "Update 2014-05-13T16:53:20.030Z"
          = "Update " +:+ Date.toISOString (host.now (world r5)).
Proof.
  intros tr.
  assert (H1 : In (Commit "Update 2014-05-13T16:53:20.030Z") tr)
    by (vm_compute; tauto).
  split; [exact H1|].
  exact (commit_only_when_staged cached None [index_html] clean _ H1).
Defined.

Lemma success_calls_witness :
  let out := task cached None [index_html] (mkRun clean []) in
  [index_html] <> []
  /\ out.2 = Success
  /\ exists e r5,
       branch_call cached None e
       /\ staged cached None [index_html] (mkRun clean []) = Resolved r5
       /\ let base :=
            [opened cached None; e] ++ pulled cached None
            ++ [RemoveFiles "." true; Dest (cacheDir cached None) [index_html];
                AddFiles "."] in
          (git._staged (world r5) = ∅ -> calls (trace out.1) = base)
          /\ (git._staged (world r5) <> ∅ ->
              calls (trace out.1)
              = base ++ Commit (message_at (world r5))
                          :: (if push cached None
                              then [Push (origin cached None)] else [])).
Proof.
  intros out.
  assert (H1 : [index_html] <> []) by (intros E; inversion E).
  assert (H2 : out.2 = Success) by (vm_compute; reflexivity).
  split; [exact H1|]. split; [exact H2|].
  exact (success_calls cached None [index_html] clean H1 H2).
Defined.

Lemma commit_message_tells_time_witness :
  Date.year0000 <= host.now clean < Date.year10000
  /\ message_at clean = message_at frozen
  /\ host.now clean = host.now frozen.
Proof.
  assert (H1 : Date.year0000 <= host.now clean < Date.year10000)
    by (change (host.now clean) with 1400000000000;
        unfold Date.year0000, Date.year10000; lia).
  assert (H2 : Date.year0000 <= host.now frozen < Date.year10000)
    by (change (host.now frozen) with 1400000000000;
        unfold Date.year0000, Date.year10000; lia).
  assert (H3 : message_at clean = message_at frozen) by reflexivity.
  split; [exact H1|]. split; [exact H3|].
  exact (commit_message_tells_time clean frozen H1 H2 H3).
Defined.

Lemma opens_first_witness :
  [index_html] <> []
  /\ exists rest,
       trace (task ephemeral None [index_html] (mkRun clean [])).1
       = PrepareRepo (Options.remoteUrl (opts ephemeral None))
           (Options.cacheDir (opts ephemeral None)) :: rest.
Proof.
  assert (H1 : [index_html] <> []) by (intros E; inversion E).
  split; [exact H1|].
  exact (opens_first ephemeral None [index_html] clean H1).
Defined.

End FurtherOnModel.
